(** * FAB_LED: a shallow embedding of [FAB_LED.h]

    The development follows the ARDUINO_ARCH_AVR branch of the header: [int]
    is 16 bits wide, [uint8_t], [uint16_t] and [uint64_t] wrap around, and the
    pins are driven through [SET_PORT_HIGH], [SET_PORT_LOW] and [FAB_PORT].
    Fixed-width integers are values of [Z] with the wrap-around written out.
    Arrays are lists of [Z]; an access outside the list is undefined behaviour
    in C and a failure here. *)

From Stdlib Require Import ZArith Lia Bool List.
From stdpp Require Import base tactics option list list_numbers.

Local Open Scope Z_scope.

(** ** Fixed-width integers *)

Definition uint8 (z : Z) : Z := z mod 2 ^ 8.
Definition uint16 (z : Z) : Z := z mod 2 ^ 16.
Definition uint64 (z : Z) : Z := z mod 2 ^ 64.

(** The value of a C comparison: 1 or 0. *)
Definition c_bool (b : bool) : Z := if b then 1 else 0.

(** ** Outcomes of running driver code *)

Inductive failure :=
  | static_assert_failed   (* a STATIC_ASSERT of the source rejects the build *)
  | out_of_bounds          (* an array is read outside its extent *)
  | division_by_zero
  | out_of_fuel            (* the loop did not finish within the given fuel *)
  | ill_formed.            (* the compiler rejects a statement of the code *)

Inductive result (A : Type) :=
  | Ok (a : A)
  | Fail (e : failure).
Arguments Ok {A} a.
Arguments Fail {A} e.

#[global] Instance result_ret : MRet result := fun A a => Ok a.
#[global] Instance result_bind : MBind result := fun A B f m =>
  match m with
  | Ok a => f a
  | Fail e => Fail e
  end.

(** [array[i]]. *)
Definition rd (array : list Z) (i : Z) : result Z :=
  if i <? 0 then Fail out_of_bounds
  else match array !! Z.to_nat i with
       | Some v => Ok v
       | None => Fail out_of_bounds
       end.

(** [array[i] = v] on a [uint8_t] array. *)
Definition wr (array : list Z) (i : Z) (v : Z) : result (list Z) :=
  if (0 <=? i) && (i <? Z.of_nat (length array))
  then Ok (<[Z.to_nat i := uint8 v]> array)
  else Fail out_of_bounds.

(** ** Pixel format tags *)

Definition PT_RGB : Z := 32.   (* 0b00100000 *)
Definition PT_GRB : Z := 64.   (* 0b01000000 *)
Definition PT_BGR : Z := 128.  (* 0b10000000 *)
Definition PT_COL : Z := 224.  (* 0b11100000 *)
Definition PT_XXXW : Z := 1.   (* 0b00000001 *)
Definition PT_BXXX : Z := 2.   (* 0b00000010 *)
Definition PT_XBYT : Z := 3.   (* 0b00000011 *)

(** [#define PT_HAS_WHITE(v)  ((v) & PT_XBYT == PT_XXXW)]
    [#define PT_HAS_BRIGHT(v) ((v) & PT_XBYT == PT_BXXX)]
    [#define PT_BYTES_PER_PIXEL(v) (((v) & PT_XBYT != 0) ? 4 : 3)]
    In C, [==] and [!=] bind tighter than [&]: the comparison of the two
    constants is evaluated first and its 0/1 value is the mask. *)
Definition PT_HAS_WHITE (v : Z) : Z := Z.land v (c_bool (PT_XBYT =? PT_XXXW)).
Definition PT_HAS_BRIGHT (v : Z) : Z := Z.land v (c_bool (PT_XBYT =? PT_BXXX)).
Definition PT_BYTES_PER_PIXEL (v : Z) : Z :=
  if Z.land v (c_bool (negb (PT_XBYT =? 0))) =? 0 then 3 else 4.

(** The six pixel structures of the API ([API_LIST]). *)
Inductive pixelType := rgb | grb | bgr | rgbw | grbw | hbgr.

#[global] Instance pixelType_eq_dec : EqDecision pixelType.
Proof. solve_decision. Defined.

(** [pixelClass::type]. *)
Definition type (c : pixelType) : Z :=
  match c with
  | rgb => PT_RGB
  | grb => PT_GRB
  | bgr => PT_BGR
  | rgbw => Z.lor PT_RGB PT_XXXW
  | grbw => Z.lor PT_GRB PT_XXXW
  | hbgr => Z.lor PT_BGR PT_BXXX
  end.

(** [sizeof(pixelClass)]: the number of [uint8_t] members of the structure. *)
Definition sizeof (c : pixelType) : Z :=
  match c with
  | rgb | grb | bgr => 3
  | rgbw | grbw | hbgr => 4
  end.

(** Byte offsets of the members [r], [g], [b] in each structure. *)
Definition off_r (c : pixelType) : Z :=
  match c with
  | rgb | rgbw => 0
  | grb | grbw => 1
  | bgr => 2
  | hbgr => 3
  end.

Definition off_g (c : pixelType) : Z :=
  match c with
  | rgb | rgbw => 1
  | grb | grbw => 0
  | bgr => 1
  | hbgr => 2
  end.

Definition off_b (c : pixelType) : Z :=
  match c with
  | rgb | rgbw | grb | grbw => 2
  | bgr => 0
  | hbgr => 1
  end.

(** Byte offset of the member [w], for the structures that declare one. In
    [hbgr] the member [w] shares its byte with [B], [brightness], [h] and
    [header]. *)
Definition off_w (c : pixelType) : option Z :=
  match c with
  | rgb | grb | bgr => None
  | rgbw | grbw => Some 3
  | hbgr => Some 0
  end.

(** ** Palette index encoding *)

(** [#define ARRAY_SIZE(numPixels, bitsPerPixel) (((numPixels)+7) / 8 * (bitsPerPixel))] *)
Definition ARRAY_SIZE (numPixels bitsPerPixel : Z) : Z :=
  (numPixels + 7) / 8 * bitsPerPixel.

(** [_SET_PIXEL]: the byte at [index/(8/bitsPerPixel)] is replaced by
    [(old & ~(((1<<bitsPerPixel)-1) << ((index*bitsPerPixel)%8)))
       | color << ((index*bitsPerPixel)%8)],
    stored back into a [uint8_t]. The operands of [/] and [%] are not
    negative, where C's division and Rocq's agree. *)
Definition SET_PIXEL (array : list Z) (index bitsPerPixel color : Z) : result (list Z) :=
  old ← rd array (index / (8 / bitsPerPixel));
  wr array (index / (8 / bitsPerPixel))
     (Z.lor
        (Z.land old
           (Z.lnot (Z.shiftl (Z.shiftl 1 bitsPerPixel - 1) ((index * bitsPerPixel) mod 8))))
        (Z.shiftl color ((index * bitsPerPixel) mod 8))).

(** [_GET_PIXEL]:
    [(array[index/(8/bitsPerPixel)] >> (index*bitsPerPixel)%8) & ((1<<bitsPerPixel)-1)]. *)
Definition GET_PIXEL (array : list Z) (index bitsPerPixel : Z) : result Z :=
  v ← rd array (index / (8 / bitsPerPixel));
  Ok (Z.land (Z.shiftr v ((index * bitsPerPixel) mod 8)) (Z.shiftl 1 bitsPerPixel - 1)).

(** ** Conversion between cycles and nanoseconds *)

Definition NS_PER_SEC : Z := 1000000000.

(** [#define CYCLES_PER_SEC ((uint64_t) (F_CPU))] *)
Definition CYCLES_PER_SEC (F_CPU : Z) : Z := uint64 F_CPU.

(** [#define CYCLES(time_ns) (((CYCLES_PER_SEC * (time_ns)) + NS_PER_SEC - 1ULL) / NS_PER_SEC)]
    Every operation is on [uint64_t]. *)
Definition CYCLES (F_CPU time_ns : Z) : Z :=
  uint64 (uint64 (uint64 (CYCLES_PER_SEC F_CPU * time_ns) + NS_PER_SEC) - 1) / NS_PER_SEC.

(** [#define NANOSECONDS(cycles) (((cycles) * NS_PER_SEC + CYCLES_PER_SEC-1) / CYCLES_PER_SEC)] *)
Definition NANOSECONDS (F_CPU cycles : Z) : Z :=
  uint64 (uint64 (uint64 (cycles * NS_PER_SEC) + CYCLES_PER_SEC F_CPU) - 1)
  / CYCLES_PER_SEC F_CPU.

(** ** Template parameters of the driver *)

Module Port.
(** [enum avrLedStripPort] *)
Inductive avrLedStripPort := A | B | C | D | E | F.
End Port.

(** [enum ledProtocol] *)
Inductive ledProtocol :=
  | ONE_PORT_BITBANG
  | TWO_PORT_SPLIT_BITBANG
  | TWO_PORT_INTLV_BITBANG
  | EIGHT_PORT_BITBANG
  | ONE_PORT_PWM             (* Not implemented *)
  | ONE_PORT_UART            (* Not implemented *)
  | SPI_BITBANG
  | SPI_HARDWARE.            (* Not implemented *)

#[global] Instance ledProtocol_eq_dec : EqDecision ledProtocol.
Proof. solve_decision. Defined.

(** The parameters [FAB_TDEF] of [template <FAB_TDEF> class avrBitbangLedStrip]. *)
Record strip := {
  high1 : Z;
  low1 : Z;
  high0 : Z;
  low0 : Z;
  minMsRefresh : Z;
  dataPortId : Port.avrLedStripPort;
  dataPortPin : Z;
  clockPortId : Port.avrLedStripPort;
  clockPortPin : Z;
  pixelClass : pixelType;
  protocol : ledProtocol
}.

(** The static members of one instantiation, and the status register. *)
Record state := {
  pixelsDisplayed : Z;   (* uint16_t *)
  oldSREG : Z;           (* uint8_t *)
  SREG : Z               (* the AVR status register; bit 7 enables interrupts *)
}.

(** [pixelsDisplayed = 0] and [oldSREG = SREG] at static initialisation. *)
Definition initial_state (sreg : Z) : state :=
  {| pixelsDisplayed := 0; oldSREG := sreg; SREG := sreg |}.

(** ** What the driver does to the outside *)

Inductive line :=
  | DataLine     (* dataPortId, dataPortPin *)
  | ClockLine.   (* clockPortId, clockPortPin *)

Inductive event :=
  | PORT_HIGH (l : line)         (* SET_PORT_HIGH(portId, portPin) *)
  | PORT_LOW (l : line)          (* SET_PORT_LOW(portId, portPin) *)
  | PORT_WRITE (v : Z)           (* FAB_PORT(dataPortId, v) *)
  | delay_cycles (n : Z)         (* __builtin_avr_delay_cycles(n) *)
  | delay (ms : Z).              (* delay(ms) *)

(** [#define DELAY_CYCLES(count) if (count > 0) __builtin_avr_delay_cycles(count);] *)
Definition DELAY_CYCLES (count : Z) : list event :=
  if 0 <? count then [delay_cycles count] else [].

Definition sbiCycles : Z := 2.
Definition cbiCycles : Z := 2.

(** [for (int8_t b = 7; b >= 0; b--)] *)
Definition bits_down : list Z := [7; 6; 5; 4; 3; 2; 1; 0].

(** A loop whose body can fail; the events of the iterations are chained. *)
Fixpoint for_each {X : Type} (l : list X) (body : X -> result (list event))
  : result (list event) :=
  match l with
  | [] => Ok []
  | x :: l' => t ← body x; ts ← for_each l' body; Ok (t ++ ts)
  end.

(** A store into a [uint8_t] member of a local pixel structure. *)
Definition set_byte (p : list Z) (off v : Z) : list Z :=
  <[Z.to_nat off := uint8 v]> p.

(** [&array[i]] for an array of structures of [size] bytes. *)
Definition element_at (array : list Z) (size i : Z) : list Z :=
  drop (Z.to_nat (i * size)) array.

(** ** The driver: [avrBitbangLedStrip<FAB_TVAR>] *)

Section avrBitbangLedStrip.

Variable cfg : strip.

(** [static const uint8_t stripBPP = PT_BYTES_PER_PIXEL(pixelClass::type);] *)
Definition stripBPP : Z := PT_BYTES_PER_PIXEL (type (pixelClass cfg)).

(** *** Low level sendBytes routines *)

(** [spiSoftwareSendFrame]: the data line is set once, then the clock line
    is pulsed while [c < 8 * count]; [8 * count] is an [unsigned int]. *)
Definition spiSoftwareSendFrame (count : Z) (high : bool) : list event :=
  (if high then [PORT_HIGH DataLine] else [PORT_LOW DataLine])
  ++ flat_map (fun _ => [PORT_LOW ClockLine; PORT_HIGH ClockLine])
              (seqZ 0 (uint16 (8 * count))).

(** One bit of [spiSoftwareSendBytes]: [bit = (val>>b) & 0x1]. *)
Definition spiBit (val b : Z) : list event :=
  [PORT_LOW ClockLine;
   if Z.land (Z.shiftr val b) 1 =? 0 then PORT_LOW DataLine else PORT_HIGH DataLine;
   PORT_HIGH ClockLine].

(** [spiSoftwareSendBytes]; the test on [stripBPP >= 4] guards an empty
    block in the source. *)
Definition spiSoftwareSendBytes (count : Z) (array : list Z) : result (list event) :=
  for_each (seqZ 0 count) (fun cnt =>
    val ← rd array cnt;
    Ok (flat_map (spiBit val) bits_down)).

(** One bit of [onePortSoftwareSendBytes]. *)
Definition onePortBit (val b : Z) : list event :=
  if Z.land (Z.shiftr val b) 1 =? 0 then
    [PORT_HIGH DataLine] ++ DELAY_CYCLES (high0 cfg - sbiCycles)
    ++ [PORT_LOW DataLine] ++ DELAY_CYCLES (low0 cfg - cbiCycles)
  else
    [PORT_HIGH DataLine] ++ DELAY_CYCLES (high1 cfg - sbiCycles)
    ++ [PORT_LOW DataLine] ++ DELAY_CYCLES (low1 cfg - cbiCycles).

Definition onePortSoftwareSendBytes (count : Z) (array : list Z) : result (list event) :=
  for_each (seqZ 0 count) (fun c =>
    val ← rd array c;
    Ok (flat_map (onePortBit val) bits_down)).

(** *** Two ports *)

(** One bit period of [twoPortSoftwareSendBytes], for the two bits read. *)
Definition twoPortBit (isbitDhigh isbitChigh : bool) : list event :=
  (if isbitDhigh then [PORT_HIGH DataLine] else [])
  ++ (if isbitChigh then [PORT_HIGH ClockLine] else [])
  ++ (if isbitDhigh then []
      else [PORT_HIGH DataLine] ++ DELAY_CYCLES (high0 cfg - sbiCycles)
           ++ [PORT_LOW DataLine])
  ++ (if isbitChigh then []
      else [PORT_HIGH ClockLine] ++ DELAY_CYCLES (high0 cfg - sbiCycles)
           ++ [PORT_LOW ClockLine])
  ++ DELAY_CYCLES (high1 cfg - 2 * sbiCycles)
  ++ [PORT_LOW DataLine; PORT_LOW ClockLine]
  ++ DELAY_CYCLES (low1 cfg - 2 * cbiCycles).

(** The index read for the clock port next to [array[pos]] for the data
    port: [array[pos + blockSize]] (split) or [array[pos + stripBPP]]
    (interleaved), in [unsigned int] arithmetic. *)
Definition twoPortClockIndex (blockSize pos : Z) : Z :=
  match protocol cfg with
  | TWO_PORT_SPLIT_BITBANG => uint16 (pos + blockSize)
  | _ => uint16 (pos + stripBPP)
  end.

(** [for (uint16_t pos = pix; pos < pix+stripBPP; pos++)]: the positions
    of one pixel; the bound is an [unsigned int]. *)
Definition twoPortPositions (pix : Z) : list Z :=
  seqZ pix (uint16 (pix + stripBPP) - pix).

(** The pairs (data index, clock index) of the loop on [pos] for one [pix]. *)
Definition twoPortPixel (blockSize pix : Z) : list (Z * Z) :=
  map (fun pos => (pos, twoPortClockIndex blockSize pos)) (twoPortPositions pix).

(** [for (uint16_t pix = 0; pix < blockSize; pix += increment)] around the
    loop on [pos]: the pairs (data index, clock index) in the order they are
    sent. *)
Fixpoint twoPortSchedule (fuel : nat) (blockSize increment pix : Z)
  : result (list (Z * Z)) :=
  match fuel with
  | O => Fail out_of_fuel
  | S fuel' =>
      if pix <? blockSize then
        rest ← twoPortSchedule fuel' blockSize increment (uint16 (pix + increment));
        Ok (twoPortPixel blockSize pix ++ rest)
      else Ok []
  end.

(** [for (int8_t bit = 7; bit >= 0; bit--)] at one pair of indices; both
    bytes are read again for every bit. *)
Definition twoPortByte (array : list Z) (dc : Z * Z) : result (list event) :=
  for_each bits_down (fun bit =>
    let mask := uint8 (Z.shiftl 1 bit) in
    d ← rd array (fst dc);
    c ← rd array (snd dc);
    Ok (twoPortBit (negb (Z.land d mask =? 0)) (negb (Z.land c mask =? 0)))).

Definition twoPortBlockSize (count : Z) : Z :=
  match protocol cfg with
  | TWO_PORT_SPLIT_BITBANG => count / 2
  | _ => count
  end.

Definition twoPortStride : Z :=
  match protocol cfg with
  | TWO_PORT_SPLIT_BITBANG => 1
  | _ => 2
  end.

(** [const uint8_t increment = stride * stripBPP;] *)
Definition twoPortIncrement : Z := uint8 (twoPortStride * stripBPP).

(** [twoPortSoftwareSendBytes]. A run of the loop on [pix] that ends sees
    every value of [pix] at most once, and all but the last are below
    [blockSize]: it ends within [blockSize + 1] tests, which is the fuel
    (lemma [twoPortSchedule_fuel] below); the loop that runs out of it does
    not end. *)
Definition twoPortSoftwareSendBytes (count : Z) (array : list Z) : result (list event) :=
  let blockSize := twoPortBlockSize count in
  sched ← twoPortSchedule (S (Z.to_nat blockSize)) blockSize twoPortIncrement 0;
  for_each sched (twoPortByte array).

(** *** Eight ports *)

(** The [switch (b)] of [eightPortSoftwareSendBytes] loads one register per
    bit position: [case 0] when [0 == dataPortPin], [case k] when
    [(k >= dataPortPin) && (k <= clockPortPin)]. *)
Definition eightPortLoads (b : Z) : bool :=
  if b =? 0 then dataPortPin cfg =? 0
  else (dataPortPin cfg <=? b) && (b <=? clockPortPin cfg).

(** In [case b], register [rj] is tested against the mask with bit
    [(7 - j + b) mod 8] set and contributes bit [j] of [bitmask]. *)
Definition eightPortBitmask (r : list Z) (b : Z) : Z :=
  fold_left Z.lor
    (imap (fun j rj =>
             if Z.land rj (Z.shiftl 1 ((7 - Z.of_nat j + b) mod 8)) =? 0
             then 0 else Z.shiftl 1 (Z.of_nat j)) r)
    0.

(** One turn of the loop on [b]: registers and [onMask] before, registers,
    [onMask] and events after. *)
Definition eightPortBit (array : list Z) (blockSize c : Z) (s : list Z * Z) (b : Z)
  : result (list Z * Z * list event) :=
  s' ← (if eightPortLoads b then
          v ← rd array (uint16 (c + (b - dataPortPin cfg) * blockSize));
          Ok (<[Z.to_nat b := v]> (fst s), Z.lor (snd s) (Z.shiftl 1 b))
        else Ok s);
  Ok (s',
      [PORT_WRITE (snd s')] ++ DELAY_CYCLES (high0 cfg - sbiCycles)
      ++ [PORT_WRITE (eightPortBitmask (fst s') b)]
      ++ DELAY_CYCLES (high1 cfg - high0 cfg + sbiCycles)
      ++ [PORT_WRITE 0] ++ DELAY_CYCLES (low0 cfg - cbiCycles - 20)).

(** The two nested loops, on a list of (c, b) in the order of the source. *)
Fixpoint eightPortLoop (array : list Z) (blockSize : Z) (cbs : list (Z * Z))
    (s : list Z * Z) : result (list event) :=
  match cbs with
  | [] => Ok []
  | (c, b) :: cbs' =>
      st ← eightPortBit array blockSize c s b;
      ts ← eightPortLoop array blockSize cbs' (fst st);
      Ok (snd st ++ ts)
  end.

(** [blockSize = count / (clockPortPin - dataPortPin + 1) / stripBPP * stripBPP],
    the divisor converted to [unsigned int]. *)
Definition eightPortSoftwareSendBytes (count : Z) (array : list Z) : result (list event) :=
  let lines := uint16 (clockPortPin cfg - dataPortPin cfg + 1) in
  if lines =? 0 then Fail division_by_zero
  else
    let blockSize := uint16 (count / lines / stripBPP * stripBPP) in
    eightPortLoop array blockSize
      (c ← seqZ 0 blockSize; b ← bits_down; [(c, b)])
      ([0; 0; 0; 0; 0; 0; 0; 0], 0).

(** [sendBytes]: the [switch] has no case for [ONE_PORT_PWM],
    [ONE_PORT_UART] and [SPI_HARDWARE], and no [default]. *)
Definition sendBytes (count : Z) (array : list Z) : result (list event) :=
  match protocol cfg with
  | ONE_PORT_BITBANG => onePortSoftwareSendBytes count array
  | TWO_PORT_SPLIT_BITBANG | TWO_PORT_INTLV_BITBANG => twoPortSoftwareSendBytes count array
  | EIGHT_PORT_BITBANG => eightPortSoftwareSendBytes count array
  | SPI_BITBANG => spiSoftwareSendBytes count array
  | ONE_PORT_PWM | ONE_PORT_UART | SPI_HARDWARE => Ok []
  end.

(** *** Begin/End *)

Definition with_pixelsDisplayed (st : state) (n : Z) : state :=
  {| pixelsDisplayed := n; oldSREG := oldSREG st; SREG := SREG st |}.

(** [begin]: a start frame for SPI; otherwise the refresh delay, then
    [oldSREG = SREG] and [__builtin_avr_cli()], which clears bit 7. *)
Definition begin_ (st : state) : state * list event :=
  match protocol cfg with
  | SPI_BITBANG => (st, spiSoftwareSendFrame 4 false)
  | _ => ({| pixelsDisplayed := pixelsDisplayed st;
             oldSREG := SREG st;
             SREG := Z.land (SREG st) 127 |},
          [delay (minMsRefresh cfg)])
  end.

(** [++pixelsDisplayed/2], the first argument of the closing frame: the
    increment is on a [uint16_t] and is done before the division. *)
Definition end_frame_count (st : state) : Z :=
  uint16 (pixelsDisplayed st + 1) / 2.

(** [end]: [spiSoftwareSendFrame(++pixelsDisplayed/2, true); pixelsDisplayed = 0;]
    for SPI, [SREG = oldSREG] otherwise. *)
Definition end_ (st : state) : state * list event :=
  match protocol cfg with
  | SPI_BITBANG =>
      (with_pixelsDisplayed st 0,
       spiSoftwareSendFrame (end_frame_count st) true)
  | _ => ({| pixelsDisplayed := pixelsDisplayed st;
             oldSREG := oldSREG st;
             SREG := oldSREG st |},
          [])
  end.

(** *** Typed pixels *)

(** [pixelClass p = {};] with the two defaults set before the loop:
    [ap->f3 = 0x00] if [pixelClass::type & PT_XXXW], [ap->f0 = 0xFF] if
    [pixelClass::type & PT_BXXX]. *)
Definition native_defaults : list Z :=
  let p := replicate (Z.to_nat (sizeof (pixelClass cfg))) 0 in
  let p := if Z.land (type (pixelClass cfg)) PT_XXXW =? 0 then p else set_byte p 3 0 in
  if Z.land (type (pixelClass cfg)) PT_BXXX =? 0 then p else set_byte p 0 255.

(** The body of the conversion loop for [array[i]] of class [F]: the
    members [r], [g], [b] by name, then [f3] and [f0] when both types carry
    the bit. *)
Definition convert (F : pixelType) (array : list Z) (i : Z) (p : list Z)
  : result (list Z) :=
  r ← rd array (i * sizeof F + off_r F);
  g ← rd array (i * sizeof F + off_g F);
  b ← rd array (i * sizeof F + off_b F);
  let p := set_byte p (off_r (pixelClass cfg)) r in
  let p := set_byte p (off_g (pixelClass cfg)) g in
  let p := set_byte p (off_b (pixelClass cfg)) b in
  p ← (if Z.land (Z.land (type (pixelClass cfg)) (type F)) PT_XXXW =? 0 then Ok p
       else f3 ← rd array (i * sizeof F + 3); Ok (set_byte p 3 f3));
  if Z.land (Z.land (type (pixelClass cfg)) (type F)) PT_BXXX =? 0 then Ok p
  else f0 ← rd array (i * sizeof F + 0); Ok (set_byte p 0 f0).

(** [for (uint16_t i = 0; i < numPixels; i++)] of the conversion branch;
    [p] lives across the iterations. *)
Fixpoint send_converted (F : pixelType) (array : list Z) (ix : list Z) (p : list Z)
  : result (list event) :=
  match ix with
  | [] => Ok []
  | i :: ix' =>
      p' ← convert F array i p;
      t ← sendBytes stripBPP p';
      ts ← send_converted F array ix' p';
      Ok (t ++ ts)
  end.

(** [send<pixelClassF>(numPixels, array)]. *)
Definition send (F : pixelType) (numPixels : Z) (array : list Z) (st : state)
  : result (state * list event) :=
  t ← (if type F =? type (pixelClass cfg)
       then sendBytes (uint16 (numPixels * stripBPP)) array
       else send_converted F array (seqZ 0 numPixels) native_defaults);
  Ok (match protocol cfg with
      | SPI_BITBANG => with_pixelsDisplayed st (uint16 (pixelsDisplayed st + numPixels))
      | _ => st
      end, t).

(** [send(count, const uint8_t * array)]: the bytes are native pixels. *)
Definition send_uint8 (count : Z) (array : list Z) (st : state)
  : result (state * list event) :=
  send (pixelClass cfg) (count / stripBPP) array st.

(** *** 16 bit pixels *)

(** [send(numPixels, const uint16_t * array, const uint8_t brightness)].
    The body assigns to members of its local [pixelClass p] and to its
    parameter [brightness]. *)
Inductive lvalue16 :=
  | p_r | p_g | p_b | p_w     (* p.r, p.g, p.b, p.w *)
  | param_brightness.         (* brightness, declared [const uint8_t] *)

(** The locals of the body. *)
Record locals16 := { p16 : list Z; brightness16 : Z }.

(** The compiler accepts [p.w = ...] when [pixelClass] declares a member
    [w], which [rgb], [grb] and [bgr] do not, and it accepts no assignment to
    [brightness], which is [const]. *)
Definition well_formed16 (l : lvalue16) : bool :=
  match l with
  | p_r | p_g | p_b => true
  | p_w => match off_w (pixelClass cfg) with Some _ => true | None => false end
  | param_brightness => false
  end.

(** An assignment of the body; the members are [uint8_t]. A statement the
    compiler does not accept has no meaning. *)
Definition store16 (l : lvalue16) (v : Z) (e : locals16) : result locals16 :=
  match l with
  | p_r => Ok {| p16 := set_byte (p16 e) (off_r (pixelClass cfg)) v;
                 brightness16 := brightness16 e |}
  | p_g => Ok {| p16 := set_byte (p16 e) (off_g (pixelClass cfg)) v;
                 brightness16 := brightness16 e |}
  | p_b => Ok {| p16 := set_byte (p16 e) (off_b (pixelClass cfg)) v;
                 brightness16 := brightness16 e |}
  | p_w => match off_w (pixelClass cfg) with
           | Some o => Ok {| p16 := set_byte (p16 e) o v;
                             brightness16 := brightness16 e |}
           | None => Fail ill_formed
           end
  | param_brightness => Fail ill_formed
  end.

(** The assignments in the text of the body: [p.b = 0xFF], [p.w = 0] and
    [brightness = 1] before the loop, [p.r = ...], [p.g = ...] and
    [p.b = ...] in it. *)
Definition send16_assignments : list lvalue16 :=
  [p_b; p_w; param_brightness; p_r; p_g; p_b].

(** The compiler checks every statement of the body when the function is
    instantiated, whatever the values at run time are. *)
Definition send16_build : result unit :=
  if forallb well_formed16 send16_assignments then Ok tt else Fail ill_formed.

(** The loop: the three products are [int]s stored in [uint8_t] members,
    and the pixel goes to [sendBytes]. *)
Fixpoint send16_loop (array : list Z) (ix : list Z) (e : locals16)
  : result (list event) :=
  match ix with
  | [] => Ok []
  | i :: ix' =>
      v ← rd array i;
      e ← store16 p_r (Z.shiftr v 11 * brightness16 e) e;
      e ← store16 p_g (Z.land (Z.shiftr v 5) 63 * brightness16 e) e;
      e ← store16 p_b (Z.land v 31 * brightness16 e) e;
      t ← sendBytes stripBPP (p16 e);
      ts ← send16_loop array ix' e;
      Ok (t ++ ts)
  end.

(** The function as a whole: it is built, and then it runs. Before the loop:
    [if (pixelClass::type && PT_BXXX) p.b = 0xFF;] and
    [if (pixelClass::type && PT_XXXW) p.w = 0;], both with the logical [&&],
    and [if (brightness == 0) brightness = 1;]. [p0] is what the
    uninitialised [pixelClass p] holds. No static member is touched. *)
Definition send16 (numPixels : Z) (array : list Z) (brightness : Z) (p0 : list Z)
    (st : state) : result (state * list event) :=
  built ← send16_build;
  e ← (if negb (type (pixelClass cfg) =? 0) && negb (PT_BXXX =? 0)
       then store16 p_b 255 {| p16 := p0; brightness16 := brightness |}
       else Ok {| p16 := p0; brightness16 := brightness |});
  e ← (if negb (type (pixelClass cfg) =? 0) && negb (PT_XXXW =? 0)
       then store16 p_w 0 e else Ok e);
  e ← (if brightness16 e =? 0 then store16 param_brightness 1 e else Ok e);
  t ← send16_loop array (seqZ 0 numPixels) e;
  Ok (st, t).

(** *** Palette and remap *)

(** One turn of the loop of
    [send<bitsPerPixel, arrayClassF, paletteClassF, mapIntF>]: [ri] from the
    map, the color index [ci] read and dropped, then
    [pixel = (palette != NULL) ? &palette[i] : &array[ri]] and
    [send(1, pixel)]. [F] is [paletteClassF]. [array] is an array of
    [uint8_t], whose elements [GET_PIXEL] shifts: [&array[ri]] is the address
    of its byte [ri], taken as the address of a pixel. *)
Definition send_map_step (bitsPerPixel : Z) (F : pixelType) (array : list Z)
    (palette remap : option (list Z)) (i : Z) (st : state)
  : result (state * list event) :=
  ri ← match remap with
       | Some m => rd m i
       | None => Ok i
       end;
  match palette with
  | Some pal =>
      ci ← GET_PIXEL array ri bitsPerPixel;
      send F 1 (element_at pal (sizeof F) i) st
  | None => send F 1 (element_at array 1 ri) st
  end.

Fixpoint send_map_loop (bitsPerPixel : Z) (F : pixelType) (array : list Z)
    (palette remap : option (list Z)) (ix : list Z) (st : state)
  : result (state * list event) :=
  match ix with
  | [] => Ok (st, [])
  | i :: ix' =>
      r ← send_map_step bitsPerPixel F array palette remap i st;
      rs ← send_map_loop bitsPerPixel F array palette remap ix' (fst r);
      Ok (fst rs, snd r ++ snd rs)
  end.

(** [send<bitsPerPixel, arrayClassF, paletteClassF, mapIntF>(count, array, palette, map)].
    [mapBits] is the width of [mapIntF] (8 or 16): [iMax = (mapIntF) count]. *)
Definition send_map (bitsPerPixel : Z) (F : pixelType) (mapBits : Z) (count : Z)
    (array : list Z) (palette remap : option (list Z)) (st : state)
  : result (state * list event) :=
  if (bitsPerPixel =? 1) || (bitsPerPixel =? 2) || (bitsPerPixel =? 4) || (bitsPerPixel =? 8)
  then send_map_loop bitsPerPixel F array palette remap (seqZ 0 (count mod 2 ^ mapBits)) st
  else Fail static_assert_failed.

(** *** Sequences of calls *)

Inductive call :=
  | call_begin
  | call_end
  | call_send (F : pixelType) (numPixels : Z) (array : list Z)
  | call_send_uint8 (count : Z) (array : list Z)
  | call_send16 (numPixels : Z) (array : list Z) (brightness : Z) (p0 : list Z)
  | call_send_map (bitsPerPixel : Z) (F : pixelType) (mapBits : Z) (count : Z)
      (array : list Z) (palette remap : option (list Z)).

Definition run_call (c : call) (st : state) : result (state * list event) :=
  match c with
  | call_begin => Ok (begin_ st)
  | call_end => Ok (end_ st)
  | call_send F numPixels array => send F numPixels array st
  | call_send_uint8 count array => send_uint8 count array st
  | call_send16 numPixels array brightness p0 => send16 numPixels array brightness p0 st
  | call_send_map bitsPerPixel F mapBits count array palette remap =>
      send_map bitsPerPixel F mapBits count array palette remap st
  end.

Fixpoint run (cs : list call) (st : state) : result (state * list event) :=
  match cs with
  | [] => Ok (st, [])
  | c :: cs' =>
      r ← run_call c st;
      rs ← run cs' (fst r);
      Ok (fst rs, snd r ++ snd rs)
  end.

End avrBitbangLedStrip.

(** ** Definitions the statements use *)

(** The smallest integer that is at least [n / 2]. *)
Definition ceil_half (n : Z) : Z := n / 2 + n mod 2.

(** The protocols of [ledProtocol] that [sendBytes] has no case for. *)
Definition unimplemented (p : ledProtocol) : bool :=
  match p with
  | ONE_PORT_PWM | ONE_PORT_UART | SPI_HARDWARE => true
  | _ => false
  end.

(** A member of a pixel structure held as bytes. *)
Definition member (p : list Z) (off : Z) : option Z := p !! Z.to_nat off.

(** Instances with the parameters of the header's presets at 16 MHz:
    [FAB_TVAR_WS2812B] (GRB) with the protocol left open, as in [ws2812b],
    [ws2812bs] and [ws2812bi], and [FAB_TVAR_APA102] (HBGR, SPI) on pins D6
    and D5. *)
Definition F_CPU : Z := 16000000.

Definition ws2812b (proto : ledProtocol) : strip :=
  {| high1 := CYCLES F_CPU 500; low1 := CYCLES F_CPU 125;
     high0 := CYCLES F_CPU 125; low0 := CYCLES F_CPU 188; minMsRefresh := 20;
     dataPortId := Port.D; dataPortPin := 6;
     clockPortId := Port.A; clockPortPin := 0;
     pixelClass := grb; protocol := proto |}.

Definition apa102 : strip :=
  {| high1 := CYCLES F_CPU 0; low1 := CYCLES F_CPU 0;
     high0 := CYCLES F_CPU 0; low0 := CYCLES F_CPU 0; minMsRefresh := 84;
     dataPortId := Port.D; dataPortPin := 6;
     clockPortId := Port.D; clockPortPin := 5;
     pixelClass := hbgr; protocol := SPI_BITBANG |}.

(** The byte indices of pixel [j] in an array of pixels of [bpp] bytes. *)
Definition pixel_bytes (bpp j : Z) : list Z := seqZ (j * bpp) bpp.

(** The calls that send pixels. *)
Definition is_send (c : call) : bool :=
  match c with
  | call_begin | call_end => false
  | _ => true
  end.

(** The number of pixels a call hands to the typed send
    [send<pixelClassF>(numPixels, array)]: its own [numPixels], one per turn
    of the palette and remap loop, none for the 16 bit send. *)
Definition typed_pixels (cfg : strip) (c : call) : Z :=
  match c with
  | call_send _ numPixels _ => numPixels
  | call_send_uint8 count _ => count / stripBPP cfg
  | call_send_map _ _ mapBits count _ _ _ => Z.max 0 (count mod 2 ^ mapBits)
  | call_begin | call_end | call_send16 _ _ _ _ => 0
  end.

(** ** More of the driver: the wrappers around [send] *)

Section avrBitbangLedStripWrappers.

Variable cfg : strip.

(** [draw<pixelClassF>(count, array)]: [begin(); send(count, array); end();] *)
Definition draw (F : pixelType) (count : Z) (array : list Z) (st : state)
  : result (state * list event) :=
  s ← send cfg F count array (fst (begin_ cfg st));
  Ok (fst (end_ cfg (fst s)),
      snd (begin_ cfg st) ++ snd s ++ snd (end_ cfg (fst s))).

(** [draw(count, const uint8_t * array)]:
    [draw<pixelClass>(count/stripBPP, array)], the array cast to native
    pixels. *)
Definition draw_uint8 (count : Z) (array : list Z) (st : state)
  : result (state * list event) :=
  draw (pixelClass cfg) (count / stripBPP cfg) array st.

(** [grey(numPixels, value)]: [begin()], then, for 3 or for 4 bytes per
    pixel, [numPixels] times [send(stripBPP, array)] on a local array filled
    with [value], then [end()]. The two STATIC_ASSERTs bound [stripBPP]. *)
Definition grey (numPixels value : Z) (st : state) : result (state * list event) :=
  if (3 <=? stripBPP cfg) && (stripBPP cfg <=? 4) then
    s ← (if stripBPP cfg =? 3 then
           run cfg (replicate (Z.to_nat numPixels)
                      (call_send_uint8 (stripBPP cfg) [value; value; value]))
             (fst (begin_ cfg st))
         else if stripBPP cfg =? 4 then
           run cfg (replicate (Z.to_nat numPixels)
                      (call_send_uint8 (stripBPP cfg) [value; value; value; value]))
             (fst (begin_ cfg st))
         else Ok (fst (begin_ cfg st), []));
    Ok (fst (end_ cfg (fst s)),
        snd (begin_ cfg st) ++ snd s ++ snd (end_ cfg (fst s)))
  else Fail static_assert_failed.

(** [clear(numPixels)]: [grey(numPixels, 0)]. *)
Definition clear (numPixels : Z) (st : state) : result (state * list event) :=
  grey numPixels 0 st.

(** The remap overloads [send(count, array, map)]. With a [uint8_t] map:
    [send<0, pixelClass, pixelClass, uint8_t>(count/stripBPP, array, NULL, map)]
    for bytes and [send<255, T, T, uint8_t>(count, array, NULL, map)] for the
    pixel types of [API_LIST]; with a [uint16_t] map:
    [send<0, ..., uint16_t>] for both. The build of these instances stops at
    the [STATIC_ASSERT], the first statement of the template, before the
    array is looked at. *)
Definition send_remap_uint8 (mapBits count : Z) (array remap : list Z) (st : state)
  : result (state * list event) :=
  send_map cfg 0 (pixelClass cfg) mapBits (count / stripBPP cfg) array None (Some remap) st.

Definition send_remap8 (F : pixelType) (count : Z) (array remap : list Z) (st : state)
  : result (state * list event) :=
  send_map cfg 255 F 8 count array None (Some remap) st.

Definition send_remap16 (F : pixelType) (count : Z) (array remap : list Z) (st : state)
  : result (state * list event) :=
  send_map cfg 0 F 16 count array None (Some remap) st.

End avrBitbangLedStripWrappers.

(** ** What a receiver sees *)

(** The levels of the clock and the data line while the events go by, and
    the level of the data line at every rising edge of the clock. *)
Fixpoint spi_sampled (clock data : bool) (t : list event) : list bool :=
  match t with
  | [] => []
  | PORT_HIGH ClockLine :: t' =>
      if clock then spi_sampled true data t' else data :: spi_sampled true data t'
  | PORT_LOW ClockLine :: t' => spi_sampled false data t'
  | PORT_HIGH DataLine :: t' => spi_sampled clock true t'
  | PORT_LOW DataLine :: t' => spi_sampled clock false t'
  | _ :: t' => spi_sampled clock data t'
  end.

(** The number of rising edges of the clock. *)
Definition clock_pulses (clock : bool) (t : list event) : nat :=
  length (spi_sampled clock false t).

(** The cycles the data line is held high by [DELAY_CYCLES], for every
    pulse from a [PORT_HIGH] to the next [PORT_LOW] of the data line;
    [open] is the count of the pulse under way. *)
Fixpoint high_widths (open : option Z) (t : list event) : list Z :=
  match t with
  | [] => []
  | PORT_HIGH DataLine :: t' =>
      high_widths (Some (match open with Some w => w | None => 0 end)) t'
  | PORT_LOW DataLine :: t' =>
      match open with
      | Some w => w :: high_widths None t'
      | None => high_widths None t'
      end
  | delay_cycles n :: t' =>
      high_widths (match open with Some w => Some (w + n) | None => None end) t'
  | _ :: t' => high_widths open t'
  end.

(** The bits of a byte, most significant first, and back. *)
Definition byte_bits (v : Z) : list bool := map (Z.testbit v) bits_down.

Fixpoint bits_value (acc : Z) (bits : list bool) : Z :=
  match bits with
  | [] => acc
  | b :: bits' => bits_value (2 * acc + (if b then 1 else 0)) bits'
  end.

Fixpoint msb_bytes (bits : list bool) : list Z :=
  match bits with
  | b7 :: b6 :: b5 :: b4 :: b3 :: b2 :: b1 :: b0 :: rest =>
      bits_value 0 [b7; b6; b5; b4; b3; b2; b1; b0] :: msb_bytes rest
  | _ => []
  end.

(** The values [PORT_WRITE] puts on the port. *)
Definition port_writes (t : list event) : list Z :=
  flat_map (fun e => match e with PORT_WRITE v => [v] | _ => [] end) t.

(** The cycles one of the two lines is held high by [DELAY_CYCLES], for
    every pulse from a [PORT_HIGH] to the next [PORT_LOW] of that line. *)
Definition line_eqb (a b : line) : bool :=
  match a, b with
  | DataLine, DataLine | ClockLine, ClockLine => true
  | _, _ => false
  end.

Fixpoint line_widths (l : line) (open : option Z) (t : list event) : list Z :=
  match t with
  | [] => []
  | PORT_HIGH l' :: t' =>
      if line_eqb l l'
      then line_widths l (Some (match open with Some w => w | None => 0 end)) t'
      else line_widths l open t'
  | PORT_LOW l' :: t' =>
      if line_eqb l l'
      then match open with
           | Some w => w :: line_widths l None t'
           | None => line_widths l None t'
           end
      else line_widths l open t'
  | delay_cycles n :: t' =>
      line_widths l (match open with Some w => Some (w + n) | None => None end) t'
  | _ :: t' => line_widths l open t'
  end.

(** A receiver on a line of the two ports that tells the short pulse of a 0,
    held for [high0 - sbiCycles] cycles, from any other. *)
Definition twoPortDecode (cfg : strip) (width : Z) : bool :=
  negb (width =? Z.max 0 (high0 cfg - sbiCycles)).

(** The bytes a line receives: its pulses decoded, eight to a byte, the
    most significant bit first. *)
Definition twoPortReceived (cfg : strip) (l : line) (t : list event) : list Z :=
  msb_bytes (map (twoPortDecode cfg) (line_widths l None t)).

(** ** The pipeline of the eight ports *)

Section eightPortPipeline.
Variable cfg : strip.
Variable array : list Z.
Variable blockSize : Z.

(** Turn [k] of the two loops of [eightPortSoftwareSendBytes] has
    [c = k / 8] and [b = 7 - k mod 8]. *)
Definition eightPortTurn (k : Z) : Z * Z := (k / 8, 7 - k mod 8).

(** Pin [j] is loaded in the turns with [b = j], the first of which is turn
    [7 - j].  Before turn [k], the pins loaded so far are those of [onMask],
    their registers hold the byte loaded last, and the other registers are
    still zero. *)
Definition eightPortRegisters (k : Z) (s : list Z * Z) : Prop :=
  length (fst s) = 8%nat
  /\ (forall j, Z.testbit (snd s) j = true ->
                0 <= j <= 7 /\ eightPortLoads cfg j = true /\ 7 - j < k)
  /\ (forall j, 0 <= j <= 7 -> eightPortLoads cfg j = true -> 7 - j < k ->
                Z.testbit (snd s) j = true
                /\ exists r, fst s !! Z.to_nat j = Some r
                             /\ rd array (uint16 ((k - 1 - (7 - j)) / 8
                                                  + (j - dataPortPin cfg) * blockSize))
                                = Ok r)
  /\ (forall j r, 0 <= j -> fst s !! Z.to_nat j = Some r ->
                  eightPortLoads cfg j = false \/ k <= 7 - j -> r = 0).

(** What turn [k] writes to the port, [onMask] first and [bitmask] second:
    nothing on a pin that is not loaded or not loaded yet; on a loaded pin
    [j], bit [k - (7 - j)] of the bytes of its block, the most significant
    bit of a byte first. *)
Definition eightPortWritten (k : Z) (onMask bitmask : Z) : Prop :=
  (forall j, Z.testbit onMask j = true ->
             0 <= j <= 7 /\ eightPortLoads cfg j = true /\ 7 - j <= k)
  /\ (forall j, Z.testbit bitmask j = true ->
                0 <= j <= 7 /\ eightPortLoads cfg j = true /\ 7 - j <= k)
  /\ (forall j, 0 <= j <= 7 -> eightPortLoads cfg j = true -> 7 - j <= k ->
                Z.testbit onMask j = true
                /\ exists v, rd array (uint16 ((k - (7 - j)) / 8
                                               + (j - dataPortPin cfg) * blockSize))
                             = Ok v
                             /\ Z.testbit bitmask j
                                = Z.testbit v (7 - (k - (7 - j)) mod 8)).

End eightPortPipeline.

(** [ws2812b8s<dataPortId, dataPortBit1, dataPortBit2>] *)
Definition ws2812b8s (port : Port.avrLedStripPort) (dataPortBit1 dataPortBit2 : Z) : strip :=
  {| high1 := CYCLES F_CPU 500; low1 := CYCLES F_CPU 125;
     high0 := CYCLES F_CPU 125; low0 := CYCLES F_CPU 188; minMsRefresh := 20;
     dataPortId := port; dataPortPin := dataPortBit1;
     clockPortId := port; clockPortPin := dataPortBit2;
     pixelClass := grb; protocol := EIGHT_PORT_BITBANG |}.

(** * Properties *)

(** ** Fixed-width integers *)

Lemma uint8_small z : 0 <= z < 256 -> uint8 z = z.
Proof. intros H. unfold uint8. apply Z.mod_small. lia. Qed.

Lemma uint16_small z : 0 <= z < 65536 -> uint16 z = z.
Proof. intros H. unfold uint16. apply Z.mod_small. lia. Qed.

Lemma uint64_small z : 0 <= z < 2 ^ 64 -> uint64 z = z.
Proof. intros H. unfold uint64. now apply Z.mod_small. Qed.

Lemma uint16_range z : 0 <= uint16 z < 65536.
Proof. unfold uint16. apply Z.mod_pos_bound. lia. Qed.

(** ** Pixel formats *)

(** [PT_BYTES_PER_PIXEL] looks at bit 0 of the tag only. *)
Lemma PT_BYTES_PER_PIXEL_bit0 v :
  PT_BYTES_PER_PIXEL v = if Z.testbit v 0 then 4 else 3.
Proof.
  unfold PT_BYTES_PER_PIXEL. cbn [PT_XBYT Z.eqb negb c_bool].
  change 1 with (Z.ones 1). rewrite Z.land_ones by lia.
  change (2 ^ 1) with 2. rewrite <- Z.bit0_mod.
  now destruct (Z.testbit v 0).
Qed.

Lemma stripBPP_cases cfg : stripBPP cfg = 3 \/ stripBPP cfg = 4.
Proof.
  unfold stripBPP. rewrite PT_BYTES_PER_PIXEL_bit0.
  destruct (Z.testbit _ 0); auto.
Qed.

(** C3. The format tag of [hbgr] is [PT_BGR | PT_BXXX]: it has the leading
    brightness byte and the structure has four bytes, yet
    [PT_BYTES_PER_PIXEL] gives 3 for it, and so does [stripBPP] for the
    [apa102] preset. *)
Theorem PT_BYTES_PER_PIXEL_hbgr :
  type hbgr = 130 /\ Z.land (type hbgr) PT_BXXX = PT_BXXX /\ sizeof hbgr = 4
  /\ PT_BYTES_PER_PIXEL (type hbgr) = 3 /\ stripBPP apa102 = 3.
Proof. repeat split. Qed.

(** ** Cycles and nanoseconds *)

Section Ceiling.

Variables x q : Z.
Hypothesis q_pos : 0 < q.

Lemma ceil_div_covers : 0 <= x -> x <= (x + q - 1) / q * q.
Proof.
  intros Hx. pose proof (Z.div_mod (x + q - 1) q ltac:(lia)) as E.
  pose proof (Z.mod_pos_bound (x + q - 1) q q_pos). nia.
Qed.

Lemma ceil_div_least n : x <= n * q -> (x + q - 1) / q <= n.
Proof.
  intros Hn. apply Z.lt_succ_r. apply Z.div_lt_upper_bound; [lia|]. nia.
Qed.

End Ceiling.

Lemma uint64_chain a b : uint64 (uint64 (uint64 a + b) - 1) = uint64 (a + b - 1).
Proof.
  unfold uint64. rewrite Zminus_mod_idemp_l.
  replace (a mod 2 ^ 64 + b - 1) with (a mod 2 ^ 64 + (b - 1)) by lia.
  rewrite Zplus_mod_idemp_l. f_equal. lia.
Qed.

Lemma CYCLES_no_wrap f d :
  0 <= f < 2 ^ 64 -> 0 <= d -> f * d + NS_PER_SEC - 1 < 2 ^ 64 ->
  CYCLES f d = (f * d + NS_PER_SEC - 1) / NS_PER_SEC.
Proof.
  intros Hf Hd Hb. unfold CYCLES, CYCLES_PER_SEC, NS_PER_SEC in *.
  assert (0 <= f * d) by nia.
  rewrite (uint64_small f) by lia.
  rewrite uint64_chain, uint64_small by lia.
  reflexivity.
Qed.

(** C6, as stated, fails where the 64-bit product wraps: at 16 MHz and
    1152921504607 ns, [CYCLES] is 1. *)
Lemma CYCLES_wraps :
  CYCLES 16000000 1152921504607 = 1
  /\ ~ (1152921504607 * 16000000 <= CYCLES 16000000 1152921504607 * NS_PER_SEC).
Proof. split; [reflexivity | vm_compute; intros H; apply H; reflexivity]. Qed.

(** C6, amended. For a duration [d] and a frequency [f] for which the 64-bit
    unsigned intermediate value of [CYCLES] does not wrap, [CYCLES] is the
    least [n] with [n * 1e9 >= d * f]; where that of [NANOSECONDS] does not
    wrap either, [NANOSECONDS] of it is at least [d]; and at 16 MHz, 650 ns
    are 11 cycles. *)
Theorem CYCLES_ceiling f d :
  0 < f < 2 ^ 64 -> 0 <= d -> f * d + NS_PER_SEC - 1 < 2 ^ 64 ->
  d * f <= CYCLES f d * NS_PER_SEC
  /\ (forall n, d * f <= n * NS_PER_SEC -> CYCLES f d <= n)
  /\ (CYCLES f d * NS_PER_SEC + f - 1 < 2 ^ 64 -> d <= NANOSECONDS f (CYCLES f d))
  /\ CYCLES 16000000 650 = 11.
Proof.
  intros Hf Hd Hb.
  assert (HNS : 0 < NS_PER_SEC) by reflexivity.
  assert (H0 : 0 <= f * d) by nia.
  rewrite CYCLES_no_wrap by lia.
  pose proof (ceil_div_covers (f * d) NS_PER_SEC HNS H0) as Hcov.
  set (c := (f * d + NS_PER_SEC - 1) / NS_PER_SEC) in *.
  assert (Hc : 0 <= c) by (apply Z.div_pos; lia).
  repeat split.
  - lia.
  - intros n Hn. apply ceil_div_least; lia.
  - intros Hn. unfold NANOSECONDS, CYCLES_PER_SEC.
    rewrite (uint64_small f) by lia.
    rewrite uint64_chain, uint64_small by nia.
    apply Z.div_le_lower_bound; lia.
Qed.

Lemma CYCLES_ceiling_witness :
  650 * 16000000 <= CYCLES 16000000 650 * NS_PER_SEC
  /\ (forall n, 650 * 16000000 <= n * NS_PER_SEC -> CYCLES 16000000 650 <= n)
  /\ 650 <= NANOSECONDS 16000000 (CYCLES 16000000 650)
  /\ CYCLES 16000000 650 = 11.
Proof.
  destruct (CYCLES_ceiling 16000000 650) as (H1 & H2 & H3 & H4).
  - split; reflexivity.
  - discriminate.
  - reflexivity.
  - split; [exact H1|]. split; [exact H2|]. split; [apply H3; reflexivity | exact H4].
Defined.

(** ** The closing frame of [end] *)

Lemma ceil_half_spec n : n <= 2 * ceil_half n < n + 2.
Proof.
  unfold ceil_half. pose proof (Z.div_mod n 2 ltac:(lia)).
  pose proof (Z.mod_pos_bound n 2 ltac:(lia)). lia.
Qed.

Lemma end_frame_count_ceil st :
  0 <= pixelsDisplayed st <= 65534 ->
  end_frame_count st = ceil_half (pixelsDisplayed st).
Proof.
  intros H. unfold end_frame_count, ceil_half. rewrite uint16_small by lia.
  Z.div_mod_to_equations. lia.
Qed.

(** A frame of [count] below 8192 is [8 * count] pulses of the clock line. *)
Lemma spiSoftwareSendFrame_pulses count high :
  0 <= count < 8192 ->
  length (spiSoftwareSendFrame count high) = Z.to_nat (1 + 2 * (8 * count)).
Proof.
  intros H. unfold spiSoftwareSendFrame. rewrite uint16_small by lia.
  rewrite length_app.
  assert (forall l : list Z,
             length (flat_map (fun _ => [PORT_LOW ClockLine; PORT_HIGH ClockLine]) l)
             = (2 * length l)%nat) as ->.
  { induction l as [|? l IH]; simpl; [reflexivity | rewrite IH; lia]. }
  rewrite length_seqZ. destruct high; simpl length; lia.
Qed.




(** ** Protocols without an implementation *)

Lemma send_converted_unimplemented cfg F array ix p t :
  unimplemented (protocol cfg) = true ->
  send_converted cfg F array ix p = Ok t -> t = [].
Proof.
  intros Hu. revert p t. induction ix as [|i ix IH]; intros p t; simpl.
  - now intros [= <-].
  - destruct (convert cfg F array i p) as [p'|]; [|discriminate]. cbn.
    unfold sendBytes. destruct (protocol cfg); try discriminate Hu; cbn.
    all: destruct (send_converted cfg F array ix p') as [ts|] eqn:E; [|discriminate].
    all: cbn; intros [= <-]; apply (IH _ _ E).
Qed.

(** C9, as stated, fails: a driver with [ONE_PORT_PWM] is not rejected, and
    sending a pixel to it returns normally without any activity on a pin. *)
Lemma send_unimplemented_is_silent :
  send (ws2812b ONE_PORT_PWM) grb 1 [20; 10; 30] (initial_state 128)
  = Ok (initial_state 128, []).
Proof. reflexivity. Qed.

(** C9, amended. With [ONE_PORT_PWM], [ONE_PORT_UART] or [SPI_HARDWARE],
    [sendBytes] matches no case of its [switch]: it returns without an event
    whatever the bytes, and a typed send that returns has produced no event
    and has left the static members as they were. *)
Theorem sendBytes_unimplemented cfg :
  unimplemented (protocol cfg) = true ->
  (forall count array, sendBytes cfg count array = Ok [])
  /\ (forall F numPixels array st,
        type F = type (pixelClass cfg) -> send cfg F numPixels array st = Ok (st, []))
  /\ (forall F numPixels array st st' t,
        send cfg F numPixels array st = Ok (st', t) -> st' = st /\ t = []).
Proof.
  intros Hu.
  assert (Hs : forall count array, sendBytes cfg count array = Ok []).
  { intros. unfold sendBytes. destruct (protocol cfg); try discriminate Hu; reflexivity. }
  repeat split.
  - exact Hs.
  - intros F n array st Ht. unfold send. rewrite Ht, Z.eqb_refl, Hs. cbn.
    destruct (protocol cfg); try discriminate Hu; reflexivity.
  - revert H. unfold send. destruct (type F =? type (pixelClass cfg)).
    + rewrite Hs. cbn. destruct (protocol cfg); try discriminate Hu; congruence.
    + destruct (send_converted _ _ _ _ _) eqn:E; [|discriminate]. cbn.
      destruct (protocol cfg); try discriminate Hu; congruence.
  - revert H. unfold send. destruct (type F =? type (pixelClass cfg)).
    + rewrite Hs. cbn. congruence.
    + destruct (send_converted _ _ _ _ _) eqn:E; [|discriminate]. cbn.
      intros [= _ <-]. apply (send_converted_unimplemented _ _ _ _ _ _ Hu E).
Qed.

Lemma sendBytes_unimplemented_witness :
  sendBytes (ws2812b SPI_HARDWARE) 3 [20; 10; 30] = Ok [].
Proof.
  destruct (sendBytes_unimplemented (ws2812b SPI_HARDWARE) eq_refl) as [H _].
  exact (H 3 [20; 10; 30]).
Defined.

(** ** 16 bit pixels *)

Lemma length_set_byte p off v : length (set_byte p off v) = length p.
Proof. unfold set_byte. apply length_insert. Qed.

(** The check of the assignments fails for every native format. *)
Lemma send16_build_Fail cfg : send16_build cfg = Fail ill_formed.
Proof.
  unfold send16_build, send16_assignments. cbn [forallb]. unfold well_formed16.
  destruct (off_w (pixelClass cfg)); reflexivity.
Qed.

(** C8. The 16 bit send is built for no strip, so that it produces no native
    pixel, whatever the pixel values and the brightness are: the compiler
    rejects [brightness = 1], an assignment to a parameter declared [const],
    for every native format, and [p.w = 0] as well for [rgb], [grb] and
    [bgr], which have no member [w]. *)
Theorem send16_ill_formed cfg numPixels array brightness p0 st :
  send16 cfg numPixels array brightness p0 st = Fail ill_formed
  /\ List.filter (fun l => negb (well_formed16 cfg l)) send16_assignments
     = match pixelClass cfg with
       | rgb | grb | bgr => [p_w; param_brightness]
       | rgbw | grbw | hbgr => [param_brightness]
       end.
Proof.
  split.
  - unfold send16. rewrite send16_build_Fail. reflexivity.
  - unfold well_formed16. destruct (pixelClass cfg); reflexivity.
Qed.

(** ** Palette index encoding *)

Lemma testbit_above n w i : 0 <= n < 2 ^ w -> 0 <= w <= i -> Z.testbit n i = false.
Proof.
  intros Hn Hw. rewrite <- (Z.mod_small n (2 ^ w)) by assumption.
  apply Z.mod_pow2_bits_high. lia.
Qed.

Lemma mask_is_ones w : Z.shiftl 1 w - 1 = Z.ones w.
Proof. unfold Z.ones. lia. Qed.

Lemma testbit_ones w i : 0 <= w -> Z.testbit (Z.ones w) i = (0 <=? i) && (i <? w).
Proof.
  intros Hw. destruct (Z.leb_spec 0 i); cbn [andb].
  - destruct (Z.ltb_spec i w).
    + apply Z.ones_spec_low. lia.
    + apply Z.ones_spec_high. lia.
  - apply Z.testbit_neg_r. lia.
Qed.

(** The bits of a byte after the field of width [w] at shift [sh] is
    cleared and [color] is or-ed in. *)
Lemma set_field_bits old color w sh k :
  0 <= w -> 0 <= sh -> 0 <= color < 2 ^ w -> 0 <= k ->
  Z.testbit (Z.lor (Z.land old (Z.lnot (Z.shiftl (Z.ones w) sh))) (Z.shiftl color sh)) k
  = if (sh <=? k) && (k <? sh + w) then Z.testbit color (k - sh) else Z.testbit old k.
Proof.
  intros Hw Hsh Hc Hk.
  rewrite Z.lor_spec, Z.land_spec, Z.lnot_spec, !Z.shiftl_spec by assumption.
  rewrite testbit_ones by assumption.
  destruct (Z.leb_spec sh k); cbn [andb].
  - replace (0 <=? k - sh) with true by (symmetry; apply Z.leb_le; lia). cbn [andb].
    destruct (Z.ltb_spec k (sh + w)).
    + replace (k - sh <? w) with true by (symmetry; apply Z.ltb_lt; lia).
      now rewrite andb_false_r.
    + replace (k - sh <? w) with false by (symmetry; apply Z.ltb_ge; lia).
      rewrite (testbit_above color w) by lia.
      now rewrite andb_true_r, orb_false_r.
  - replace (0 <=? k - sh) with false by (symmetry; apply Z.leb_gt; lia). cbn [andb negb].
    rewrite (Z.testbit_neg_r color) by lia.
    now rewrite andb_true_r, orb_false_r.
Qed.

(** The bit field of a pixel lies within its byte. *)
Lemma field_in_byte index bitsPerPixel :
  bitsPerPixel = 1 \/ bitsPerPixel = 2 \/ bitsPerPixel = 4 \/ bitsPerPixel = 8 ->
  0 <= (index * bitsPerPixel) mod 8 /\ (index * bitsPerPixel) mod 8 + bitsPerPixel <= 8.
Proof.
  intros [->|[->|[->| ->]]]; Z.div_mod_to_equations; lia.
Qed.

Lemma rd_Ok array i v : rd array i = Ok v <-> 0 <= i /\ array !! Z.to_nat i = Some v.
Proof.
  unfold rd. destruct (Z.ltb_spec i 0).
  - split; [discriminate | lia].
  - destruct (array !! Z.to_nat i); split; intros; try discriminate.
    + split; [lia | congruence].
    + f_equal. destruct H0. congruence.
    + destruct H0. discriminate.
Qed.

Lemma rd_in_range array i :
  0 <= i < Z.of_nat (length array) -> exists v, rd array i = Ok v /\ array !!! Z.to_nat i = v.
Proof.
  intros H. destruct (lookup_lt_is_Some_2 array (Z.to_nat i)) as [v Hv]; [lia|].
  exists v. split; [apply rd_Ok; split; [lia | exact Hv]|].
  now apply list_lookup_total_correct.
Qed.

(** C5. For 1, 2, 4 or 8 bits per pixel, a pixel position inside the
    buffer, a buffer of bytes and a color that fits the bits, [SET_PIXEL]
    followed by [GET_PIXEL] at the same position gives the color back, and
    every bit of the buffer outside the bit field of the position keeps its
    value. *)
Theorem SET_GET_PIXEL array index bitsPerPixel color :
  bitsPerPixel = 1 \/ bitsPerPixel = 2 \/ bitsPerPixel = 4 \/ bitsPerPixel = 8 ->
  0 <= index ->
  index / (8 / bitsPerPixel) < Z.of_nat (length array) ->
  Forall (fun byte => 0 <= byte < 256) array ->
  0 <= color < 2 ^ bitsPerPixel ->
  exists array',
    SET_PIXEL array index bitsPerPixel color = Ok array'
    /\ GET_PIXEL array' index bitsPerPixel = Ok color
    /\ length array' = length array
    /\ forall (j : nat) (k : Z),
         Z.of_nat j <> index / (8 / bitsPerPixel)
         \/ k < (index * bitsPerPixel) mod 8
         \/ (index * bitsPerPixel) mod 8 + bitsPerPixel <= k ->
         Z.testbit (array' !!! j) k = Z.testbit (array !!! j) k.
Proof.
  intros Hbpp Hi Hlen Hbytes Hc.
  pose proof (field_in_byte index bitsPerPixel Hbpp) as [Hsh0 Hsh8].
  assert (Hw : 0 < bitsPerPixel) by lia.
  set (sh := (index * bitsPerPixel) mod 8) in *.
  set (ix := index / (8 / bitsPerPixel)) in *.
  assert (Hix : 0 <= ix).
  { subst ix. apply Z.div_pos; [lia|]. destruct Hbpp as [->|[->|[->| ->]]]; reflexivity. }
  destruct (rd_in_range array ix ltac:(lia)) as (old & Hrd & Hold).
  assert (Hold8 : 0 <= old < 256).
  { rewrite Forall_forall in Hbytes. apply Hbytes.
    apply list_elem_of_lookup. exists (Z.to_nat ix). apply rd_Ok in Hrd. tauto. }
  set (new := Z.lor (Z.land old (Z.lnot (Z.shiftl (Z.ones bitsPerPixel) sh)))
                (Z.shiftl color sh)).
  assert (Hbits : forall k, 0 <= k ->
            Z.testbit (uint8 new) k
            = if (sh <=? k) && (k <? sh + bitsPerPixel)
              then Z.testbit color (k - sh) else Z.testbit old k).
  { intros k Hk. unfold uint8. destruct (Z.ltb_spec k 8).
    - rewrite Z.mod_pow2_bits_low by lia. apply set_field_bits; lia.
    - rewrite Z.mod_pow2_bits_high by lia.
      replace (k <? sh + bitsPerPixel) with false by (symmetry; apply Z.ltb_ge; lia).
      rewrite andb_false_r. symmetry. apply (testbit_above old 8); [exact Hold8 | lia]. }
  exists (<[Z.to_nat ix := uint8 new]> array).
  assert (Hset : SET_PIXEL array index bitsPerPixel color
                 = Ok (<[Z.to_nat ix := uint8 new]> array)).
  { unfold SET_PIXEL. fold ix. fold sh. rewrite Hrd. cbn [mbind result_bind].
    rewrite mask_is_ones. fold new. unfold wr.
    replace (0 <=? ix) with true by (symmetry; apply Z.leb_le; lia).
    replace (ix <? Z.of_nat (length array)) with true by (symmetry; apply Z.ltb_lt; lia).
    reflexivity. }
  split; [exact Hset|]. split; [|split].
  - unfold GET_PIXEL. fold ix. fold sh.
    destruct (rd_in_range (<[Z.to_nat ix := uint8 new]> array) ix) as (v & Hv & Hv').
    { rewrite length_insert. lia. }
    rewrite Hv. cbn [mbind result_bind]. f_equal.
    rewrite list_lookup_total_insert_eq in Hv' by lia. subst v.
    rewrite mask_is_ones. apply Z.bits_inj'. intros k Hk.
    rewrite Z.land_spec, Z.shiftr_spec, testbit_ones, Hbits by lia.
    replace (0 <=? k) with true by (symmetry; apply Z.leb_le; lia). cbn [andb].
    destruct (Z.ltb_spec k bitsPerPixel).
    + replace (sh <=? k + sh) with true by (symmetry; apply Z.leb_le; lia).
      replace (k + sh <? sh + bitsPerPixel) with true by (symmetry; apply Z.ltb_lt; lia).
      cbn [andb]. rewrite andb_true_r. f_equal. lia.
    + rewrite andb_false_r. symmetry. apply (testbit_above color bitsPerPixel); lia.
  - apply length_insert.
  - intros j k Hjk. destruct (Nat.eq_dec j (Z.to_nat ix)) as [->|Hne].
    + rewrite list_lookup_total_insert_eq by lia. rewrite Hold.
      destruct (Z.ltb_spec k 0).
      * rewrite !Z.testbit_neg_r by lia. reflexivity.
      * rewrite Hbits by lia.
        destruct Hjk as [Hj|[Hk|Hk]]; [lia| |].
        -- replace (sh <=? k) with false by (symmetry; apply Z.leb_gt; lia). reflexivity.
        -- replace (k <? sh + bitsPerPixel) with false by (symmetry; apply Z.ltb_ge; lia).
           now rewrite andb_false_r.
    + rewrite list_lookup_total_insert_ne by congruence. reflexivity.
Qed.

Lemma SET_GET_PIXEL_witness :
  exists array',
    SET_PIXEL [228; 27] 5 2 3 = Ok array'
    /\ GET_PIXEL array' 5 2 = Ok 3
    /\ length array' = length [228; 27]
    /\ forall (j : nat) (k : Z),
         Z.of_nat j <> 5 / (8 / 2) \/ k < (5 * 2) mod 8 \/ (5 * 2) mod 8 + 2 <= k ->
         Z.testbit (array' !!! j) k = Z.testbit ([228; 27] !!! j) k.
Proof.
  apply (SET_GET_PIXEL [228; 27] 5 2 3).
  - right; left; reflexivity.
  - lia.
  - vm_compute. reflexivity.
  - repeat constructor; lia.
  - vm_compute. split; [discriminate | reflexivity].
Defined.

(** ** Two ports *)

Lemma for_each_Ok {X : Type} (l : list X) (body : X -> result (list event)) :
  (forall x, In x l -> exists t, body x = Ok t) -> exists t, for_each l body = Ok t.
Proof.
  induction l as [|x l IH]; intros H; simpl.
  - eauto.
  - destruct (H x (or_introl eq_refl)) as [t ->].
    destruct IH as [ts ->]; [intros; apply H; now right|].
    cbn. eauto.
Qed.

Lemma twoPortByte_Ok cfg array d c :
  0 <= d < Z.of_nat (length array) -> 0 <= c < Z.of_nat (length array) ->
  exists t, twoPortByte cfg array (d, c) = Ok t.
Proof.
  intros Hd Hc. unfold twoPortByte. apply for_each_Ok. intros bit _. cbn [fst snd].
  destruct (rd_in_range array d Hd) as (vd & -> & _).
  destruct (rd_in_range array c Hc) as (vc & -> & _).
  cbn. eauto.
Qed.

(** *** The fuel of the loop on [pix]

    A run that ends after [m] turns needs [m + 1] tests. The values of [pix]
    it sees are below [blockSize] and different from each other, since a
    value seen twice would be seen for ever: there are at most [blockSize] of
    them, and the fuel of [twoPortSoftwareSendBytes] is enough for every run
    that ends. *)

Section Fuel.

Variable cfg : strip.
Variables blockSize increment : Z.

Let next (pix : Z) : Z := uint16 (pix + increment).

Lemma twoPortSchedule_turns fuel :
  forall pix s,
    twoPortSchedule cfg fuel blockSize increment pix = Ok s ->
    exists m : nat,
      (m < fuel)%nat
      /\ (forall j, (j < m)%nat -> Nat.iter j next pix < blockSize)
      /\ blockSize <= Nat.iter m next pix.
Proof.
  induction fuel as [|fuel IH]; intros pix s; cbn [twoPortSchedule]; [discriminate|].
  destruct (Z.ltb_spec pix blockSize) as [Hlt|Hge].
  - fold (next pix).
    destruct (twoPortSchedule cfg fuel blockSize increment (next pix)) as [rest|] eqn:E;
      [|discriminate].
    intros _. destruct (IH _ _ E) as (m & Hm & Hbelow & Hend).
    exists (S m). split; [lia|]. split.
    + intros [|j] Hj; [exact Hlt|]. rewrite Nat.iter_succ_r. apply Hbelow. lia.
    + rewrite Nat.iter_succ_r. exact Hend.
  - intros _. exists O. split; [lia|]. split; [lia | exact Hge].
Qed.

Lemma twoPortSchedule_more_fuel fuel :
  forall pix s (m fuel' : nat),
    twoPortSchedule cfg fuel blockSize increment pix = Ok s ->
    (forall j, (j < m)%nat -> Nat.iter j next pix < blockSize) ->
    blockSize <= Nat.iter m next pix ->
    (m < fuel')%nat ->
    twoPortSchedule cfg fuel' blockSize increment pix = Ok s.
Proof.
  induction fuel as [|fuel IH]; intros pix s m fuel'; cbn [twoPortSchedule]; [discriminate|].
  intros Hs Hbelow Hend Hm. destruct fuel' as [|fuel']; [lia|]. cbn [twoPortSchedule].
  destruct (Z.ltb_spec pix blockSize) as [Hlt|Hge]; [|exact Hs].
  fold (next pix) in Hs |- *.
  destruct (twoPortSchedule cfg fuel blockSize increment (next pix)) as [rest|] eqn:E;
    [|discriminate].
  destruct m as [|m]; [cbn in Hend; lia|].
  rewrite (IH _ _ m fuel' E); [exact Hs | | | lia].
  - intros j Hj. rewrite <- Nat.iter_succ_r. apply Hbelow. lia.
  - rewrite <- Nat.iter_succ_r. exact Hend.
Qed.

Lemma iter_next_range j : (0 < j)%nat -> 0 <= Nat.iter j next 0 < 65536.
Proof. destruct j; [lia|]. intros _. rewrite Nat.iter_succ. apply uint16_range. Qed.

Lemma iter_next_period a d :
  Nat.iter (a + d) next 0 = Nat.iter a next 0 ->
  forall t, Nat.iter (a + d + t) next 0 = Nat.iter (a + t) next 0.
Proof.
  intros H t. induction t as [|t IH].
  - now rewrite !Nat.add_0_r.
  - rewrite !Nat.add_succ_r, !Nat.iter_succ. now rewrite IH.
Qed.

Lemma twoPortSchedule_turns_bound (m : nat) :
  (forall j, (j < m)%nat -> Nat.iter j next 0 < blockSize) ->
  blockSize <= Nat.iter m next 0 ->
  (m <= Z.to_nat blockSize)%nat.
Proof.
  intros Hbelow Hend.
  set (seen := (fun j => Nat.iter j next 0) <$> seq 0 m).
  assert (Hlen : length seen = m) by (subst seen; now rewrite length_fmap, length_seq).
  assert (Hlook : forall j x, seen !! j = Some x -> (j < m)%nat /\ x = Nat.iter j next 0).
  { intros j x Hx. subst seen. rewrite list_lookup_fmap in Hx.
    destruct (seq 0 m !! j) as [k|] eqn:Ek; [|discriminate].
    apply lookup_seq in Ek as [-> Hj]. injection Hx as <-. split; [lia | reflexivity]. }
  assert (Hnodup : NoDup seen).
  { apply NoDup_alt. intros a b x Ha Hb.
    apply Hlook in Ha as [Ha ->]. apply Hlook in Hb as [Hb Hab].
    destruct (Nat.eq_dec a b) as [|Hne]; [assumption | exfalso].
    assert (exists lo d, (0 < d)%nat /\ (lo + d < m)%nat
                         /\ Nat.iter (lo + d) next 0 = Nat.iter lo next 0)
      as (lo & d & Hd & Hm & Heq).
    { destruct (Nat.lt_ge_cases a b).
      - exists a, (b - a)%nat. replace (a + (b - a))%nat with b by lia.
        split; [lia|]. split; [lia | congruence].
      - exists b, (a - b)%nat. replace (b + (a - b))%nat with a by lia.
        split; [lia|]. split; [lia | congruence]. }
    pose proof (iter_next_period lo d Heq (m - (lo + d))) as Hp.
    replace (lo + d + (m - (lo + d)))%nat with m in Hp by lia.
    specialize (Hbelow (lo + (m - (lo + d)))%nat ltac:(lia)). lia. }
  rewrite <- Hlen, <- (length_seqZ 0 blockSize).
  apply submseteq_length, NoDup_submseteq; [exact Hnodup|].
  intros x Hx. apply list_elem_of_lookup in Hx as [j Hj].
  apply Hlook in Hj as [Hj ->]. apply elem_of_seqZ.
  specialize (Hbelow j Hj). destruct j; [cbn in *; lia|].
  pose proof (iter_next_range (S j) ltac:(lia)). lia.
Qed.

(** Whenever some fuel lets the loop on [pix] end, the fuel of
    [twoPortSoftwareSendBytes] does, with the same result. *)
Lemma twoPortSchedule_fuel fuel s :
  twoPortSchedule cfg fuel blockSize increment 0 = Ok s ->
  twoPortSchedule cfg (S (Z.to_nat blockSize)) blockSize increment 0 = Ok s.
Proof.
  intros Hs. destruct (twoPortSchedule_turns _ _ _ Hs) as (m & _ & Hbelow & Hend).
  apply (twoPortSchedule_more_fuel fuel 0 s m _ Hs Hbelow Hend).
  pose proof (twoPortSchedule_turns_bound m Hbelow Hend). lia.
Qed.

End Fuel.

(** When [blockSize] is a whole number of increments, the loop on [pix]
    visits the multiples of [increment] below [blockSize] and stops. *)
Lemma twoPortSchedule_run cfg blockSize increment (n : nat) :
  0 < increment -> blockSize < 65536 ->
  forall (j0 : Z) (fuel : nat),
    (n < fuel)%nat -> 0 <= j0 -> (j0 + Z.of_nat n) * increment = blockSize ->
    twoPortSchedule cfg fuel blockSize increment (j0 * increment)
    = Ok (flat_map (fun j => twoPortPixel cfg blockSize (j * increment))
            (seqZ j0 (Z.of_nat n))).
Proof.
  intros Hinc Hfit.
  induction n as [|n IH]; intros j0 fuel Hf Hj Hb;
    (destruct fuel as [|fuel]; [lia|]); cbn [twoPortSchedule].
  - replace (j0 * increment <? blockSize) with false by (symmetry; apply Z.ltb_ge; lia).
    reflexivity.
  - replace (j0 * increment <? blockSize) with true by (symmetry; apply Z.ltb_lt; nia).
    rewrite uint16_small by nia.
    replace (j0 * increment + increment) with ((j0 + 1) * increment) by lia.
    rewrite IH by lia. cbn [mbind result_bind].
    rewrite (seqZ_cons j0) by lia. cbn [flat_map].
    replace (Z.succ j0) with (j0 + 1) by lia.
    replace (Z.pred (Z.of_nat (S n))) with (Z.of_nat n) by lia.
    reflexivity.
Qed.

(** Consecutive blocks of [len] indices make one range. *)
Lemma blocks_range a len (n : nat) :
  0 <= len ->
  forall j0, flat_map (fun j => seqZ (a + j * len) len) (seqZ j0 (Z.of_nat n))
             = seqZ (a + j0 * len) (Z.of_nat n * len).
Proof.
  intros Hlen. induction n as [|n IH]; intros j0.
  - now rewrite !seqZ_nil by lia.
  - rewrite (seqZ_cons j0) by lia. cbn [flat_map].
    replace (Z.pred (Z.of_nat (S n))) with (Z.of_nat n) by lia.
    rewrite IH. replace (Z.of_nat (S n) * len) with (len + Z.of_nat n * len) by lia.
    rewrite seqZ_app by nia. do 2 f_equal. lia.
Qed.

Lemma map_flat_map {X Y W : Type} (f : Y -> W) (g : X -> list Y) (l : list X) :
  map f (flat_map g l) = flat_map (fun x => map f (g x)) l.
Proof. induction l as [|x l IH]; simpl; [reflexivity | now rewrite map_app, IH]. Qed.

(** Pixels 2j and 2j+1 of every pair j together cover the bytes of the pairs. *)
Lemma interleaved_Permutation bpp (n : nat) :
  0 <= bpp ->
  forall j0,
    flat_map (fun j => pixel_bytes bpp (2 * j)) (seqZ j0 (Z.of_nat n))
    ++ flat_map (fun j => pixel_bytes bpp (2 * j + 1)) (seqZ j0 (Z.of_nat n))
    ≡ₚ seqZ (2 * bpp * j0) (2 * bpp * Z.of_nat n).
Proof.
  intros Hb. induction n as [|n IH]; intros j0.
  - rewrite !seqZ_nil by lia. reflexivity.
  - rewrite (seqZ_cons j0) by lia. cbn [flat_map].
    replace (Z.pred (Z.of_nat (S n))) with (Z.of_nat n) by lia.
    replace (2 * bpp * Z.of_nat (S n)) with (2 * bpp + 2 * bpp * Z.of_nat n) by lia.
    rewrite seqZ_app by nia.
    replace (2 * bpp * j0 + 2 * bpp) with (2 * bpp * Z.succ j0) by lia.
    rewrite <- IH.
    assert (Hhead : seqZ (2 * bpp * j0) (2 * bpp)
                    = pixel_bytes bpp (2 * j0) ++ pixel_bytes bpp (2 * j0 + 1)).
    { unfold pixel_bytes. replace (seqZ (2 * bpp * j0) (2 * bpp))
        with (seqZ (2 * j0 * bpp) (bpp + bpp)) by (f_equal; lia).
      rewrite seqZ_app by lia. do 2 f_equal. lia. }
    rewrite Hhead, <- !app_assoc. apply Permutation_app_head.
    apply Permutation_app_swap_app.
Qed.

Lemma flat_map_ext_In {X Y : Type} (f g : X -> list Y) (l : list X) :
  (forall x, In x l -> f x = g x) -> flat_map f l = flat_map g l.
Proof.
  induction l as [|x l IH]; intros H; simpl; [reflexivity|].
  rewrite (H x) by now left. rewrite IH; [reflexivity|]. intros; apply H; now right.
Qed.

Lemma In_seqZ m n x : In x (seqZ m n) <-> m <= x < m + n.
Proof. rewrite <- list_elem_of_In. apply elem_of_seqZ. Qed.

Lemma map_shift_seqZ (f : Z -> Z) off (n : nat) :
  forall p, (forall pos, p <= pos < p + Z.of_nat n -> f pos = pos + off) ->
            map f (seqZ p (Z.of_nat n)) = seqZ (p + off) (Z.of_nat n).
Proof.
  induction n as [|n IH]; intros p H.
  - now rewrite !seqZ_nil by lia.
  - rewrite (seqZ_cons p), (seqZ_cons (p + off)) by lia. cbn [map].
    rewrite H by lia. f_equal.
    replace (Z.pred (Z.of_nat (S n))) with (Z.of_nat n) by lia.
    rewrite IH by (intros; apply H; lia). f_equal. lia.
Qed.

Lemma map_fst_pairs {X Y : Type} (f : X -> Y) (l : list X) :
  map fst (map (fun x => (x, f x)) l) = l.
Proof. induction l as [|x l IH]; simpl; [reflexivity | now rewrite IH]. Qed.

Lemma map_snd_pairs {X Y : Type} (f : X -> Y) (l : list X) :
  map snd (map (fun x => (x, f x)) l) = map f l.
Proof. induction l as [|x l IH]; simpl; [reflexivity | now rewrite IH]. Qed.

(** The pairs of one pixel when no index wraps: the data indices are the
    [stripBPP] bytes from [pix], the clock indices the same bytes [off]
    further. *)
Lemma twoPortPixel_indices cfg blockSize pix off :
  0 <= pix -> pix + stripBPP cfg < 65536 ->
  (forall pos, pix <= pos < pix + stripBPP cfg ->
               twoPortClockIndex cfg blockSize pos = pos + off) ->
  map fst (twoPortPixel cfg blockSize pix) = seqZ pix (stripBPP cfg)
  /\ map snd (twoPortPixel cfg blockSize pix) = seqZ (pix + off) (stripBPP cfg).
Proof.
  intros Hp Hfit Hoff. unfold twoPortPixel, twoPortPositions.
  pose proof (stripBPP_cases cfg) as Hbpp.
  rewrite uint16_small by lia.
  replace (pix + stripBPP cfg - pix) with (stripBPP cfg) by lia.
  rewrite map_fst_pairs, map_snd_pairs. split; [reflexivity|].
  set (b := stripBPP cfg) in *. rewrite <- (Z2Nat.id b) by lia.
  apply map_shift_seqZ. intros pos Hpos. apply Hoff. lia.
Qed.

Lemma schedule_indices cfg blockSize increment off (n : Z) :
  0 <= increment ->
  (forall j, 0 <= j < n -> j * increment + stripBPP cfg < 65536) ->
  (forall j pos, 0 <= j < n -> j * increment <= pos < j * increment + stripBPP cfg ->
                 twoPortClockIndex cfg blockSize pos = pos + off) ->
  let sched := flat_map (fun j => twoPortPixel cfg blockSize (j * increment)) (seqZ 0 n) in
  map fst sched = flat_map (fun j => seqZ (j * increment) (stripBPP cfg)) (seqZ 0 n)
  /\ map snd sched = flat_map (fun j => seqZ (j * increment + off) (stripBPP cfg)) (seqZ 0 n).
Proof.
  intros Hinc Hfit Hoff sched. subst sched. rewrite !map_flat_map.
  split; apply flat_map_ext_In; intros j Hj; apply In_seqZ in Hj;
    apply (twoPortPixel_indices cfg blockSize (j * increment) off);
    try (apply Hfit; lia); try nia; intros pos Hpos; apply Hoff with (j := j); lia.
Qed.

Lemma split_parameters cfg k :
  protocol cfg = TWO_PORT_SPLIT_BITBANG -> 
  twoPortBlockSize cfg (2 * stripBPP cfg * k) = stripBPP cfg * k
  /\ twoPortIncrement cfg = stripBPP cfg.
Proof.
  intros Hp. unfold twoPortBlockSize, twoPortIncrement, twoPortStride. rewrite Hp.
  split.
  - replace (2 * stripBPP cfg * k) with (stripBPP cfg * k * 2) by lia.
    apply Z.div_mul. lia.
  - destruct (stripBPP_cases cfg) as [-> | ->]; reflexivity.
Qed.

Lemma interleaved_parameters cfg k :
  protocol cfg = TWO_PORT_INTLV_BITBANG -> 
  twoPortBlockSize cfg (2 * stripBPP cfg * k) = 2 * stripBPP cfg * k
  /\ twoPortIncrement cfg = 2 * stripBPP cfg.
Proof.
  intros Hp. unfold twoPortBlockSize, twoPortIncrement, twoPortStride. rewrite Hp.
  split; [reflexivity|].
  destruct (stripBPP_cases cfg) as [-> | ->]; reflexivity.
Qed.

(** For a byte array of [count] bytes, [count] being [k] pairs of pixels of
    [stripBPP] bytes, the two-port routine ends without reading outside the
    array; the indices it reads for the data port followed by those it reads
    for the clock port are a permutation of [0 .. count-1]; in split mode
    they are the first half for the data port and the second half for the
    clock port, in interleaved mode pixel [2j] for the data port and
    pixel [2j+1] for the clock port. *)
Lemma twoPortSchedule_covers cfg k count array :
  protocol cfg = TWO_PORT_SPLIT_BITBANG \/ protocol cfg = TWO_PORT_INTLV_BITBANG ->
  0 <= k -> count = 2 * stripBPP cfg * k -> count < 65536 ->
  Z.of_nat (length array) = count ->
  exists sched t,
    twoPortSchedule cfg (S (Z.to_nat (twoPortBlockSize cfg count)))
      (twoPortBlockSize cfg count) (twoPortIncrement cfg) 0 = Ok sched
    /\ sendBytes cfg count array = Ok t
    /\ for_each sched (twoPortByte cfg array) = Ok t
    /\ map fst sched ++ map snd sched ≡ₚ seqZ 0 count
    /\ (protocol cfg = TWO_PORT_SPLIT_BITBANG ->
        map fst sched = seqZ 0 (count / 2)
        /\ map snd sched = seqZ (count / 2) (count / 2))
    /\ (protocol cfg = TWO_PORT_INTLV_BITBANG ->
        map fst sched = flat_map (fun j => pixel_bytes (stripBPP cfg) (2 * j)) (seqZ 0 k)
        /\ map snd sched
           = flat_map (fun j => pixel_bytes (stripBPP cfg) (2 * j + 1)) (seqZ 0 k)).
Proof.
  intros Hp Hk -> Hfit Hlen.
  pose proof (stripBPP_cases cfg) as Hbpp.
  set (bpp := stripBPP cfg) in *.
  assert (Hb : 0 < bpp) by lia.
  (* the schedule, with its two index lists *)
  assert (exists sched,
    twoPortSchedule cfg (S (Z.to_nat (twoPortBlockSize cfg (2 * bpp * k))))
      (twoPortBlockSize cfg (2 * bpp * k)) (twoPortIncrement cfg) 0 = Ok sched
    /\ map fst sched ++ map snd sched ≡ₚ seqZ 0 (2 * bpp * k)
    /\ (protocol cfg = TWO_PORT_SPLIT_BITBANG ->
        map fst sched = seqZ 0 (2 * bpp * k / 2)
        /\ map snd sched = seqZ (2 * bpp * k / 2) (2 * bpp * k / 2))
    /\ (protocol cfg = TWO_PORT_INTLV_BITBANG ->
        map fst sched = flat_map (fun j => pixel_bytes bpp (2 * j)) (seqZ 0 k)
        /\ map snd sched = flat_map (fun j => pixel_bytes bpp (2 * j + 1)) (seqZ 0 k)))
    as (sched & Hsched & Hperm & Hsplit & Hintlv).
  { destruct Hp as [Hp|Hp].
    - destruct (split_parameters cfg k Hp) as [HB Hinc]. fold bpp in HB, Hinc.
      rewrite HB, Hinc.
      pose proof (twoPortSchedule_run cfg (bpp * k) bpp (Z.to_nat k) Hb ltac:(lia)
                    0 (S (Z.to_nat (bpp * k))) ltac:(nia) ltac:(lia) ltac:(lia)) as Hrun.
      rewrite Z2Nat.id in Hrun by lia. change (0 * bpp) with 0 in Hrun.
      eexists. split; [exact Hrun|].
      destruct (schedule_indices cfg (bpp * k) bpp (bpp * k) k) as [Hfst Hsnd].
      + lia.
      + fold bpp. intros j Hj. nia.
      + fold bpp. intros j pos Hj Hpos. unfold twoPortClockIndex. rewrite Hp.
        apply uint16_small. nia.
      + fold bpp in Hfst, Hsnd.
        assert (Hd : flat_map (fun j => seqZ (j * bpp) bpp) (seqZ 0 k) = seqZ 0 (bpp * k)).
        { pose proof (blocks_range 0 bpp (Z.to_nat k) ltac:(lia) 0) as Hr.
          rewrite Z2Nat.id in Hr by lia. cbn [Z.add] in Hr.
          change (0 * bpp) with 0 in Hr. replace (k * bpp) with (bpp * k) in Hr by lia.
          exact Hr. }
        assert (Hc : flat_map (fun j => seqZ (j * bpp + bpp * k) bpp) (seqZ 0 k)
                     = seqZ (bpp * k) (bpp * k)).
        { pose proof (blocks_range (bpp * k) bpp (Z.to_nat k) ltac:(lia) 0) as Hr.
          rewrite Z2Nat.id in Hr by lia.
          replace (bpp * k + 0 * bpp) with (bpp * k) in Hr by lia.
          replace (k * bpp) with (bpp * k) in Hr by lia.
          rewrite <- Hr. apply flat_map_ext_In. intros; f_equal; lia. }
        rewrite Hfst, Hsnd, Hd, Hc.
        replace (2 * bpp * k / 2) with (bpp * k)
          by (replace (2 * bpp * k) with (bpp * k * 2) by lia; now rewrite Z.div_mul).
        split; [|split; [auto | rewrite Hp; discriminate]].
        replace (2 * bpp * k) with (bpp * k + bpp * k) by lia.
        rewrite seqZ_app by nia. reflexivity.
    - destruct (interleaved_parameters cfg k Hp) as [HB Hinc]. fold bpp in HB, Hinc.
      rewrite HB, Hinc.
      pose proof (twoPortSchedule_run cfg (2 * bpp * k) (2 * bpp) (Z.to_nat k)
                    ltac:(lia) ltac:(lia)
                    0 (S (Z.to_nat (2 * bpp * k))) ltac:(nia) ltac:(lia) ltac:(lia)) as Hrun.
      rewrite Z2Nat.id in Hrun by lia. change (0 * (2 * bpp)) with 0 in Hrun.
      eexists. split; [exact Hrun|].
      destruct (schedule_indices cfg (2 * bpp * k) (2 * bpp) bpp k) as [Hfst Hsnd].
      + lia.
      + fold bpp. intros j Hj. nia.
      + fold bpp. intros j pos Hj Hpos. unfold twoPortClockIndex. rewrite Hp.
        fold bpp. apply uint16_small. nia.
      + fold bpp in Hfst, Hsnd.
        assert (Hd : flat_map (fun j => seqZ (j * (2 * bpp)) bpp) (seqZ 0 k)
                     = flat_map (fun j => pixel_bytes bpp (2 * j)) (seqZ 0 k)).
        { apply flat_map_ext_In. intros; unfold pixel_bytes; f_equal; lia. }
        assert (Hc : flat_map (fun j => seqZ (j * (2 * bpp) + bpp) bpp) (seqZ 0 k)
                     = flat_map (fun j => pixel_bytes bpp (2 * j + 1)) (seqZ 0 k)).
        { apply flat_map_ext_In. intros; unfold pixel_bytes; f_equal; lia. }
        rewrite Hfst, Hsnd, Hd, Hc.
        split; [|split; [rewrite Hp; discriminate | auto]].
        pose proof (interleaved_Permutation bpp (Z.to_nat k) ltac:(lia) 0) as Hperm.
        rewrite Z2Nat.id in Hperm by lia.
        replace (2 * bpp * 0) with 0 in Hperm by lia. exact Hperm. }
  (* every index is inside the array, so no read fails *)
  destruct (for_each_Ok sched (twoPortByte cfg array)) as [t Ht].
  { intros [d c] Hin.
    assert (Hd : In d (map fst sched ++ map snd sched)).
    { apply in_or_app. left. apply (in_map fst) in Hin. exact Hin. }
    assert (Hc : In c (map fst sched ++ map snd sched)).
    { apply in_or_app. right. apply (in_map snd) in Hin. exact Hin. }
    apply (Permutation_in _ Hperm), In_seqZ in Hd.
    apply (Permutation_in _ Hperm), In_seqZ in Hc.
    apply twoPortByte_Ok; lia. }
  exists sched, t. split; [exact Hsched|]. split; [|auto].
  unfold sendBytes, twoPortSoftwareSendBytes.
  destruct Hp as [-> | ->]; rewrite Hsched; cbn [mbind result_bind]; exact Ht.
Qed.


(** ** The counter of pixels *)

Lemma send_state cfg F numPixels array st st' t :
  send cfg F numPixels array st = Ok (st', t) ->
  st' = match protocol cfg with
        | SPI_BITBANG => with_pixelsDisplayed st (uint16 (pixelsDisplayed st + numPixels))
        | _ => st
        end.
Proof.
  unfold send.
  destruct (if type F =? type (pixelClass cfg) then _ else _); [|discriminate].
  cbn. congruence.
Qed.

Lemma send16_state cfg numPixels array brightness p0 st st' t :
  send16 cfg numPixels array brightness p0 st = Ok (st', t) -> st' = st.
Proof.
  unfold send16. rewrite send16_build_Fail. discriminate.
Qed.

(** A sequence of calls with the 16 bit send in it does not run. *)
Lemma run_no_send16 cfg numPixels array brightness p0 cs :
  forall st st' t,
    run cfg cs st = Ok (st', t) -> ~ In (call_send16 numPixels array brightness p0) cs.
Proof.
  induction cs as [|c cs IH]; intros st st' t H Hin; [destruct Hin|].
  cbn [run] in H.
  destruct (run_call cfg c st) as [[st1 t1]|] eqn:E1; [|discriminate].
  cbn [mbind result_bind fst snd] in H.
  destruct (run cfg cs st1) as [[st2 t2]|] eqn:E2; [|discriminate].
  destruct Hin as [-> | Hin].
  - cbn [run_call] in E1. unfold send16 in E1. rewrite send16_build_Fail in E1.
    discriminate.
  - exact (IH _ _ _ E2 Hin).
Qed.

Lemma send_map_step_state cfg bitsPerPixel F array palette remap i st st' t :
  send_map_step cfg bitsPerPixel F array palette remap i st = Ok (st', t) ->
  st' = match protocol cfg with
        | SPI_BITBANG => with_pixelsDisplayed st (uint16 (pixelsDisplayed st + 1))
        | _ => st
        end.
Proof.
  unfold send_map_step.
  destruct (match remap with Some m => rd m i | None => Ok i end) as [ri|]; [|discriminate].
  cbn. destruct palette as [pal|].
  - destruct (GET_PIXEL array ri bitsPerPixel); [|discriminate]. cbn. apply send_state.
  - apply send_state.
Qed.

Lemma uint16_add_l a b : uint16 (uint16 a + b) = uint16 (a + b).
Proof. unfold uint16. apply Zplus_mod_idemp_l. Qed.

Lemma send_map_loop_state cfg bitsPerPixel F array palette remap ix :
  forall st st' t,
    send_map_loop cfg bitsPerPixel F array palette remap ix st = Ok (st', t) ->
    st' = match protocol cfg with
          | SPI_BITBANG =>
              with_pixelsDisplayed st
                (if decide (ix = []) then pixelsDisplayed st
                 else uint16 (pixelsDisplayed st + Z.of_nat (length ix)))
          | _ => st
          end.
Proof.
  induction ix as [|i ix IH]; intros st st' t; cbn [send_map_loop].
  - intros [= <- _]. destruct st, (protocol cfg); reflexivity.
  - destruct (send_map_step _ _ _ _ _ _ _ _) as [[st1 t1]|] eqn:E1; [|discriminate].
    cbn [mbind result_bind fst snd].
    destruct (send_map_loop _ _ _ _ _ _ _ _) as [[st2 t2]|] eqn:E2; [|discriminate].
    cbn [mbind result_bind fst snd]. intros H. inversion H; subst st' t; clear H.
    apply send_map_step_state in E1. apply IH in E2. subst st2 st1.
    destruct (protocol cfg); try reflexivity.
    destruct (decide (i :: ix = [])) as [?|_]; [discriminate|].
    destruct (decide (ix = [])) as [->|_]; cbn.
    + reflexivity.
    + unfold with_pixelsDisplayed; cbn. f_equal.
      rewrite uint16_add_l. f_equal. lia.
Qed.

(** A call leaves [oldSREG] and [SREG] to [begin] and [end], and changes the
    counter under SPI_BITBANG only. *)
Lemma run_call_counter cfg c st st' t :
  protocol cfg <> SPI_BITBANG ->
  run_call cfg c st = Ok (st', t) -> pixelsDisplayed st' = pixelsDisplayed st.
Proof.
  intros Hp. destruct c; cbn [run_call].
  - intros [= H]. revert H. unfold begin_.
    destruct (protocol cfg); intros [= <- _]; try reflexivity; congruence.
  - intros [= H]. revert H. unfold end_.
    destruct (protocol cfg); intros [= <- _]; try reflexivity; congruence.
  - intros H. apply send_state in H. subst. destruct (protocol cfg); congruence.
  - intros H. apply send_state in H. subst. destruct (protocol cfg); congruence.
  - intros H. apply send16_state in H. congruence.
  - unfold send_map. destruct (_ || _); [|discriminate].
    intros H. apply send_map_loop_state in H. subst.
    destruct (protocol cfg); congruence.
Qed.

Lemma run_counter cfg cs :
  protocol cfg <> SPI_BITBANG ->
  forall st st' t, run cfg cs st = Ok (st', t) -> pixelsDisplayed st' = pixelsDisplayed st.
Proof.
  intros Hp. induction cs as [|c cs IH]; intros st st' t; cbn [run].
  - now intros [= <- _].
  - destruct (run_call cfg c st) as [[st1 t1]|] eqn:E1; [|discriminate].
    cbn [mbind result_bind fst snd].
    destruct (run cfg cs st1) as [[st2 t2]|] eqn:E2; [|discriminate].
    cbn [mbind result_bind fst snd]. intros H. inversion H; subst st' t; clear H.
    rewrite (IH _ _ _ E2). apply (run_call_counter _ _ _ _ _ Hp E1).
Qed.

Lemma run_call_typed_pixels cfg c st st' t :
  protocol cfg = SPI_BITBANG -> is_send c = true ->
  run_call cfg c st = Ok (st', t) ->
  pixelsDisplayed st' = uint16 (pixelsDisplayed st + typed_pixels cfg c)
  \/ (typed_pixels cfg c = 0 /\ st' = st).
Proof.
  intros Hp Hs. destruct c; try discriminate Hs; cbn [run_call typed_pixels].
  - intros H. apply send_state in H. subst. rewrite Hp. now left.
  - intros H. apply send_state in H. subst. rewrite Hp. now left.
  - intros H. apply send16_state in H. now right.
  - unfold send_map. destruct (_ || _); [|discriminate].
    intros H. apply send_map_loop_state in H. subst. rewrite Hp.
    rewrite length_seqZ.
    destruct (decide (seqZ 0 (count mod 2 ^ mapBits) = [])) as [E|E].
    + right. split; [|destruct st; reflexivity].
      apply (f_equal length) in E. rewrite length_seqZ in E. cbn in E. lia.
    + left. cbn. f_equal. f_equal. lia.
Qed.

Lemma run_typed_pixels cfg cs :
  protocol cfg = SPI_BITBANG -> forallb is_send cs = true ->
  forall st st' t,
    0 <= pixelsDisplayed st < 65536 ->
    run cfg cs st = Ok (st', t) ->
    pixelsDisplayed st'
    = uint16 (pixelsDisplayed st + fold_right Z.add 0 (map (typed_pixels cfg) cs)).
Proof.
  intros Hp. induction cs as [|c cs IH]; intros Hs st st' t Hr; cbn [run].
  - intros [= <- _]. cbn. rewrite Z.add_0_r. symmetry. now apply uint16_small.
  - cbn [forallb] in Hs. apply andb_prop in Hs as [Hc Hs].
    destruct (run_call cfg c st) as [[st1 t1]|] eqn:E1; [|discriminate].
    cbn [mbind result_bind fst snd].
    destruct (run cfg cs st1) as [[st2 t2]|] eqn:E2; [|discriminate].
    cbn [mbind result_bind fst snd]. intros H. inversion H; subst st' t; clear H.
    destruct (run_call_typed_pixels _ _ _ _ _ Hp Hc E1) as [H1|[H0 ->]].
    + rewrite (IH Hs _ _ _ ltac:(rewrite H1; apply uint16_range) E2), H1.
      rewrite uint16_add_l. f_equal. cbn [map fold_right]. lia.
    + rewrite (IH Hs _ _ _ Hr E2). cbn [map fold_right]. rewrite H0. reflexivity.
Qed.



(** ** Typed pixels *)

(** For every native format but [hbgr], [stripBPP] is the size of the pixel
    structure. *)
Lemma stripBPP_sizeof cfg :
  pixelClass cfg <> hbgr -> stripBPP cfg = sizeof (pixelClass cfg).
Proof. unfold stripBPP. destruct (pixelClass cfg); intros H; try reflexivity. congruence. Qed.

(** The native branch forwards the source array itself, for
    [numPixels * stripBPP] bytes. *)
Lemma send_same_format cfg F numPixels array st :
  type F = type (pixelClass cfg) ->
  send cfg F numPixels array st
  = (t ← sendBytes cfg (uint16 (numPixels * stripBPP cfg)) array;
     Ok (match protocol cfg with
         | SPI_BITBANG => with_pixelsDisplayed st (uint16 (pixelsDisplayed st + numPixels))
         | _ => st
         end, t)).
Proof. intros H. unfold send. rewrite H, Z.eqb_refl. reflexivity. Qed.

(** The conversion of one pixel between two different formats: red, green
    and blue by name; white, when the native format has it, from the source
    if the source has it and 0 otherwise; the leading byte, when the native
    format has it, from the source if the source has it and 0xFF otherwise. *)
Lemma convert_members cfg F src :
  Z.of_nat (length src) = sizeof F ->
  Forall (fun byte => 0 <= byte < 256) src ->
  type F <> type (pixelClass cfg) ->
  exists q,
    convert cfg F src 0 (native_defaults cfg) = Ok q
    /\ Z.of_nat (length q) = sizeof (pixelClass cfg)
    /\ member q (off_r (pixelClass cfg)) = member src (off_r F)
    /\ member q (off_g (pixelClass cfg)) = member src (off_g F)
    /\ member q (off_b (pixelClass cfg)) = member src (off_b F)
    /\ (Z.land (type (pixelClass cfg)) PT_XXXW <> 0 ->
        member q 3 = if Z.land (type F) PT_XXXW =? 0 then Some 0 else member src 3)
    /\ (Z.land (type (pixelClass cfg)) PT_BXXX <> 0 ->
        member q 0 = if Z.land (type F) PT_BXXX =? 0 then Some 255 else member src 0).
Proof.
  intros Hl Hb Ht. unfold convert, native_defaults.
  destruct (pixelClass cfg), F; try congruence; cbn in Hl;
    repeat (destruct src as [|? src]; try (cbn in Hl; lia));
    repeat match goal with
           | H : Forall _ (_ :: _) |- _ => inversion H; subst; clear H
           end;
    cbv -[uint8]; rewrite ?uint8_small by assumption;
    eexists; (split; [reflexivity|]); repeat split; intros;
    rewrite ?uint8_small by assumption; congruence.
Qed.

(** The scenario of the specification: native GRB, source RGB
    [{r=10, g=20, b=30}], native bytes [{g=20, r=10, b=30}]. *)
Example convert_rgb_to_grb :
  convert (ws2812b ONE_PORT_BITBANG) rgb [10; 20; 30] 0
    (native_defaults (ws2812b ONE_PORT_BITBANG)) = Ok [20; 10; 30]
  /\ send (ws2812b ONE_PORT_BITBANG) rgb 1 [10; 20; 30] (initial_state 0)
     = (t ← sendBytes (ws2812b ONE_PORT_BITBANG) 3 [20; 10; 30]; Ok (initial_state 0, t)).
Proof. split; reflexivity. Qed.

(** C4. With [hbgr] as the native and the source format, the native branch
    forwards [numPixels * stripBPP] bytes with [stripBPP = 3]: of the pixel
    [{h=255, b=30, g=20, r=10}] the first three bytes are sent and the red
    byte never is, whatever its value. *)
Theorem send_hbgr_drops_red :
  type hbgr = type (pixelClass apa102)
  /\ send apa102 hbgr 1 [255; 30; 20; 10] (initial_state 0)
     = (t ← sendBytes apa102 3 [255; 30; 20];
        Ok (with_pixelsDisplayed (initial_state 0) 1, t))
  /\ (forall red st,
        send apa102 hbgr 1 [255; 30; 20; red] st = send apa102 hbgr 1 [255; 30; 20; 10] st)
  /\ sendBytes apa102 3 [255; 30; 20] <> sendBytes apa102 4 [255; 30; 20; 10].
Proof.
  split; [reflexivity|]. split; [reflexivity|]. split.
  - intros red st. reflexivity.
  - intros H.
    apply (f_equal (fun r => match r with Ok t => length t | Fail _ => O end)) in H.
    vm_compute in H. discriminate.
Qed.

(** ** Palette and remap *)

(** With a palette, the turn for position [i] sends [palette[i]]: the color
    index read from the array is not used. *)
Lemma send_map_step_palette cfg bitsPerPixel F array pal remap i ri ci st :
  match remap with Some m => rd m i | None => Ok i end = Ok ri ->
  GET_PIXEL array ri bitsPerPixel = Ok ci ->
  send_map_step cfg bitsPerPixel F array (Some pal) remap i st
  = send cfg F 1 (element_at pal (sizeof F) i) st.
Proof.
  intros Hri Hci. unfold send_map_step. rewrite Hri. cbn [mbind result_bind].
  rewrite Hci. reflexivity.
Qed.

(** C1. Four pixels at 2 bits per pixel in the byte [0b00011011] have the
    color indices 3, 2, 1, 0. With a palette of four native pixels and no
    map, the send transmits the palette entries 0, 1, 2, 3 in this order, as
    a plain send of the palette does, and not the entries 3, 2, 1, 0. *)
Theorem send_map_ignores_color_index :
  let cfg := ws2812b ONE_PORT_BITBANG in
  let palette := [1; 1; 1; 2; 2; 2; 3; 3; 3; 4; 4; 4] in
  let indexed := [4; 4; 4; 3; 3; 3; 2; 2; 2; 1; 1; 1] in
  map (fun i => GET_PIXEL [27] i 2) [0; 1; 2; 3] = [Ok 3; Ok 2; Ok 1; Ok 0]
  /\ send_map cfg 2 grb 8 4 [27] (Some palette) None (initial_state 0)
     = send cfg grb 4 palette (initial_state 0)
  /\ send_map cfg 2 grb 8 4 [27] (Some palette) None (initial_state 0)
     <> send cfg grb 4 indexed (initial_state 0).
Proof.
  cbv zeta. split; [reflexivity|]. split; [vm_compute; reflexivity|].
  vm_compute. discriminate.
Qed.

(** * Further properties of the code *)

(** ** Palette buffers *)



(** The bits of the field that [SET_PIXEL] writes are those of the color,
    whatever the color and the old byte. *)
Lemma set_field_bits_inside old color w sh k :
  0 <= w -> 0 <= sh <= k -> k < sh + w ->
  Z.testbit (Z.lor (Z.land old (Z.lnot (Z.shiftl (Z.ones w) sh))) (Z.shiftl color sh)) k
  = Z.testbit color (k - sh).
Proof.
  intros Hw Hsh Hk.
  rewrite Z.lor_spec, Z.land_spec, Z.lnot_spec, !Z.shiftl_spec by lia.
  rewrite testbit_ones by assumption.
  replace (0 <=? k - sh) with true by (symmetry; apply Z.leb_le; lia).
  replace (k - sh <? w) with true by (symmetry; apply Z.ltb_lt; lia).
  cbn [andb negb]. now rewrite andb_false_r.
Qed.

Lemma SET_PIXEL_Ok array index bitsPerPixel color array' :
  SET_PIXEL array index bitsPerPixel color = Ok array' ->
  exists old,
    rd array (index / (8 / bitsPerPixel)) = Ok old
    /\ 0 <= index / (8 / bitsPerPixel) < Z.of_nat (length array)
    /\ array' = <[Z.to_nat (index / (8 / bitsPerPixel)) :=
                  uint8 (Z.lor
                           (Z.land old
                              (Z.lnot (Z.shiftl (Z.ones bitsPerPixel)
                                         ((index * bitsPerPixel) mod 8))))
                           (Z.shiftl color ((index * bitsPerPixel) mod 8)))]> array.
Proof.
  unfold SET_PIXEL.
  destruct (rd array (index / (8 / bitsPerPixel))) as [old|] eqn:Hrd; [|discriminate].
  cbn [mbind result_bind]. unfold wr. rewrite mask_is_ones.
  destruct (Z.leb_spec 0 (index / (8 / bitsPerPixel))); [|discriminate].
  destruct (Z.ltb_spec (index / (8 / bitsPerPixel)) (Z.of_nat (length array)));
    [|discriminate].
  cbn [andb]. intros [= <-]. exists old. auto.
Qed.

(** X2. [SET_PIXEL], for any color, followed by [GET_PIXEL] at the same
    position gives the color reduced modulo [2^bitsPerPixel]: the macro does
    not mask the color, the read does. *)
Theorem GET_SET_PIXEL_truncates array index bitsPerPixel color array' :
  bitsPerPixel = 1 \/ bitsPerPixel = 2 \/ bitsPerPixel = 4 \/ bitsPerPixel = 8 ->
  SET_PIXEL array index bitsPerPixel color = Ok array' ->
  GET_PIXEL array' index bitsPerPixel = Ok (color mod 2 ^ bitsPerPixel).
Proof.
  intros Hbpp Hset.
  destruct (SET_PIXEL_Ok _ _ _ _ _ Hset) as (old & Hrd & Hin & ->).
  pose proof (field_in_byte index bitsPerPixel Hbpp) as [Hsh0 Hsh8].
  assert (Hw : 0 < bitsPerPixel) by lia.
  set (sh := (index * bitsPerPixel) mod 8) in *.
  set (ix := index / (8 / bitsPerPixel)) in *.
  unfold GET_PIXEL. fold ix. fold sh.
  destruct (rd_in_range (<[Z.to_nat ix := uint8 (Z.lor
              (Z.land old (Z.lnot (Z.shiftl (Z.ones bitsPerPixel) sh)))
              (Z.shiftl color sh))]> array) ix) as (v & Hv & Hv').
  { rewrite length_insert. lia. }
  rewrite Hv. cbn [mbind result_bind]. f_equal.
  rewrite list_lookup_total_insert_eq in Hv' by lia. subst v.
  rewrite mask_is_ones, <- Z.land_ones by lia.
  apply Z.bits_inj'. intros k Hk.
  rewrite !Z.land_spec, Z.shiftr_spec, testbit_ones by lia.
  replace (0 <=? k) with true by (symmetry; apply Z.leb_le; lia). cbn [andb].
  destruct (Z.ltb_spec k bitsPerPixel); [|now rewrite !andb_false_r].
  rewrite !andb_true_r. unfold uint8.
  rewrite Z.mod_pow2_bits_low by lia.
  rewrite set_field_bits_inside by lia. f_equal. lia.
Qed.

Lemma GET_SET_PIXEL_truncates_witness :
  GET_PIXEL [55] 1 2 = Ok (13 mod 2 ^ 2).
Proof.
  apply (GET_SET_PIXEL_truncates [3] 1 2 13 [55]).
  - right; left; reflexivity.
  - reflexivity.
Defined.

(** Two different positions of the same byte have bit fields that do not
    meet. *)
Lemma fields_apart i j bitsPerPixel :
  bitsPerPixel = 1 \/ bitsPerPixel = 2 \/ bitsPerPixel = 4 \/ bitsPerPixel = 8 ->
  i <> j -> i / (8 / bitsPerPixel) = j / (8 / bitsPerPixel) ->
  (i * bitsPerPixel) mod 8 + bitsPerPixel <= (j * bitsPerPixel) mod 8
  \/ (j * bitsPerPixel) mod 8 + bitsPerPixel <= (i * bitsPerPixel) mod 8.
Proof.
  intros [->|[->|[->| ->]]];
    [change (8 / 1) with 8 | change (8 / 2) with 4
     | change (8 / 4) with 2 | change (8 / 8) with 1];
    intros Hne Hq; Z.div_mod_to_equations; lia.
Qed.

(** X3. [SET_PIXEL] of a color that fits the bits leaves the color index of
    every other position as it was. *)
Theorem SET_PIXEL_other_positions array index bitsPerPixel color array' j :
  bitsPerPixel = 1 \/ bitsPerPixel = 2 \/ bitsPerPixel = 4 \/ bitsPerPixel = 8 ->
  0 <= color < 2 ^ bitsPerPixel ->
  SET_PIXEL array index bitsPerPixel color = Ok array' ->
  j <> index ->
  GET_PIXEL array' j bitsPerPixel = GET_PIXEL array j bitsPerPixel.
Proof.
  intros Hbpp Hc Hset Hj.
  destruct (SET_PIXEL_Ok _ _ _ _ _ Hset) as (old & Hrd & Hin & ->).
  pose proof (field_in_byte index bitsPerPixel Hbpp) as [Hsh0 Hsh8].
  pose proof (field_in_byte j bitsPerPixel Hbpp) as [Hj0 Hj8].
  assert (Hw : 0 < bitsPerPixel) by lia.
  unfold GET_PIXEL.
  destruct (Z.eq_dec (j / (8 / bitsPerPixel)) (index / (8 / bitsPerPixel))) as [Heq|Hne].
  - rewrite Heq, Hrd.
    set (ix := index / (8 / bitsPerPixel)) in *.
    destruct (rd_in_range (<[Z.to_nat ix := uint8 (Z.lor
                (Z.land old (Z.lnot (Z.shiftl (Z.ones bitsPerPixel)
                                       ((index * bitsPerPixel) mod 8))))
                (Z.shiftl color ((index * bitsPerPixel) mod 8)))]> array) ix)
      as (v & Hv & Hv').
    { rewrite length_insert. lia. }
    rewrite Hv. cbn [mbind result_bind]. f_equal.
    rewrite list_lookup_total_insert_eq in Hv' by lia. subst v.
    rewrite mask_is_ones. apply Z.bits_inj'. intros k Hk.
    rewrite !Z.land_spec, !Z.shiftr_spec, testbit_ones by lia.
    replace (0 <=? k) with true by (symmetry; apply Z.leb_le; lia). cbn [andb].
    destruct (Z.ltb_spec k bitsPerPixel); [|now rewrite !andb_false_r].
    rewrite !andb_true_r. unfold uint8.
    rewrite Z.mod_pow2_bits_low by lia.
    rewrite set_field_bits by lia.
    destruct (fields_apart j index bitsPerPixel Hbpp Hj Heq).
    + replace ((index * bitsPerPixel) mod 8 <=? k + (j * bitsPerPixel) mod 8) with false
        by (symmetry; apply Z.leb_gt; lia).
      reflexivity.
    + replace (k + (j * bitsPerPixel) mod 8 <? (index * bitsPerPixel) mod 8 + bitsPerPixel)
        with false by (symmetry; apply Z.ltb_ge; lia).
      now rewrite andb_false_r.
  - unfold rd. destruct (Z.ltb_spec (j / (8 / bitsPerPixel)) 0); [reflexivity|].
    rewrite list_lookup_insert_ne by lia. reflexivity.
Qed.

Lemma SET_PIXEL_other_positions_witness :
  GET_PIXEL [237] 0 2 = GET_PIXEL [225] 0 2.
Proof.
  apply (SET_PIXEL_other_positions [225] 1 2 3 [237] 0).
  - right; left; reflexivity.
  - split; [lia | reflexivity].
  - reflexivity.
  - discriminate.
Defined.

(** ** One port and SPI: byte after byte *)

Lemma rd_app_middle a1 x a2 : rd (a1 ++ x :: a2) (Z.of_nat (length a1)) = Ok x.
Proof.
  apply rd_Ok. split; [lia|]. rewrite Nat2Z.id.
  rewrite lookup_app_r by lia. now rewrite Nat.sub_diag.
Qed.

(** A loop over the indices of a stretch of the array that reads one
    element per turn sees the elements of the stretch in order. *)
Lemma for_each_stretch (f : Z -> list event) a2 :
  forall a1 a3,
    for_each (seqZ (Z.of_nat (length a1)) (Z.of_nat (length a2)))
      (fun c => v ← rd (a1 ++ a2 ++ a3) c; Ok (f v))
    = Ok (flat_map f a2).
Proof.
  induction a2 as [|x a2 IH]; intros a1 a3.
  - reflexivity.
  - rewrite seqZ_cons by (cbn [length]; lia). cbn [for_each].
    change ((x :: a2) ++ a3) with (x :: a2 ++ a3). rewrite rd_app_middle.
    cbn [mbind result_bind flat_map].
    replace (Z.pred (Z.of_nat (length (x :: a2)))) with (Z.of_nat (length a2))
      by (cbn [length]; lia).
    replace (Z.succ (Z.of_nat (length a1))) with (Z.of_nat (length (a1 ++ [x])))
      by (rewrite length_app; cbn [length]; lia).
    replace (a1 ++ x :: a2 ++ a3) with ((a1 ++ [x]) ++ a2 ++ a3)
      by (now rewrite <- app_assoc).
    rewrite IH. reflexivity.
Qed.

(** The signal of one byte on one port and on SPI. *)
Lemma onePortSoftwareSendBytes_bytes cfg a rest :
  onePortSoftwareSendBytes cfg (Z.of_nat (length a)) (a ++ rest)
  = Ok (flat_map (fun v => flat_map (onePortBit cfg v) bits_down) a).
Proof. apply (for_each_stretch _ a [] rest). Qed.

Lemma spiSoftwareSendBytes_bytes a rest :
  spiSoftwareSendBytes (Z.of_nat (length a)) (a ++ rest)
  = Ok (flat_map (fun v => flat_map (spiBit v) bits_down) a).
Proof. apply (for_each_stretch _ a [] rest). Qed.

(** X4. With one port and with SPI, [sendBytes] works byte after byte: it
    depends on the first [count] bytes only, and sending two stretches in one
    call gives the events of sending the first and then the second. *)
Theorem sendBytes_concat cfg a1 a2 rest :
  protocol cfg = ONE_PORT_BITBANG \/ protocol cfg = SPI_BITBANG ->
  sendBytes cfg (Z.of_nat (length a1) + Z.of_nat (length a2)) (a1 ++ a2 ++ rest)
  = (t1 ← sendBytes cfg (Z.of_nat (length a1)) a1;
     t2 ← sendBytes cfg (Z.of_nat (length a2)) a2;
     Ok (t1 ++ t2)).
Proof.
  intros Hp. rewrite <- Nat2Z.inj_add, <- length_app, app_assoc.
  unfold sendBytes. destruct Hp as [-> | ->].
  - pose proof (onePortSoftwareSendBytes_bytes cfg a1 []) as H1.
    pose proof (onePortSoftwareSendBytes_bytes cfg a2 []) as H2.
    rewrite app_nil_r in H1, H2.
    rewrite onePortSoftwareSendBytes_bytes, H1, H2. cbn [mbind result_bind].
    now rewrite flat_map_app.
  - pose proof (spiSoftwareSendBytes_bytes a1 []) as H1.
    pose proof (spiSoftwareSendBytes_bytes a2 []) as H2.
    rewrite app_nil_r in H1, H2.
    rewrite spiSoftwareSendBytes_bytes, H1, H2. cbn [mbind result_bind].
    now rewrite flat_map_app.
Qed.

Lemma sendBytes_concat_witness :
  sendBytes (ws2812b ONE_PORT_BITBANG) (Z.of_nat 2 + Z.of_nat 1) ([1; 2] ++ [3] ++ [4])
  = (t1 ← sendBytes (ws2812b ONE_PORT_BITBANG) (Z.of_nat 2) [1; 2];
     t2 ← sendBytes (ws2812b ONE_PORT_BITBANG) (Z.of_nat 1) [3];
     Ok (t1 ++ t2)).
Proof. apply (sendBytes_concat (ws2812b ONE_PORT_BITBANG) [1; 2] [3] [4]). now left. Defined.

(** The test of bit [b] in the loops: [(val>>b) & 0x1]. *)
Lemma bit_test val b : 0 <= b -> (Z.land (Z.shiftr val b) 1 =? 0) = negb (Z.testbit val b).
Proof.
  intros Hb. change 1 with (Z.ones 1). rewrite Z.land_ones by lia.
  change (2 ^ 1) with 2. rewrite <- Z.bit0_mod, Z.shiftr_spec by lia.
  rewrite Z.add_0_l. now destruct (Z.testbit val b).
Qed.

Lemma byte_bits_value v : 0 <= v < 256 -> bits_value 0 (byte_bits v) = v.
Proof.
  intros Hv.
  assert (H : forallb (fun v => bits_value 0 (byte_bits v) =? v) (seqZ 0 256) = true)
    by (vm_compute; reflexivity).
  rewrite forallb_forall in H. apply Z.eqb_eq, H, In_seqZ. lia.
Qed.

Lemma msb_bytes_byte v rest :
  0 <= v < 256 -> msb_bytes (byte_bits v ++ rest) = v :: msb_bytes rest.
Proof.
  intros Hv. unfold byte_bits, bits_down. cbn [map app msb_bytes].
  f_equal. apply (byte_bits_value v Hv).
Qed.

Lemma spi_sampled_byte v clock data rest :
  spi_sampled clock data (flat_map (spiBit v) bits_down ++ rest)
  = byte_bits v ++ spi_sampled true (Z.testbit v 0) rest.
Proof.
  unfold byte_bits, bits_down, spiBit. cbn [flat_map map app].
  rewrite !bit_test by lia.
  repeat match goal with
         | |- context [Z.testbit v ?b] => destruct (Z.testbit v b)
         end; reflexivity.
Qed.

Lemma spi_sampled_bytes a :
  Forall (fun byte => 0 <= byte < 256) a ->
  forall clock data,
    msb_bytes (spi_sampled clock data
                 (flat_map (fun v => flat_map (spiBit v) bits_down) a)) = a.
Proof.
  induction 1 as [|v a Hv _ IH]; intros clock data; [reflexivity|].
  cbn [flat_map]. rewrite spi_sampled_byte, msb_bytes_byte by assumption.
  now rewrite IH.
Qed.

(** X5. With SPI, a receiver that takes the level of the data line at every
    rising edge of the clock, eight bits to a byte and the most significant
    first, receives the bytes of the array, whatever the levels of the two
    lines before; there are eight rising edges per byte. *)
Theorem spi_round_trip cfg array clock data :
  protocol cfg = SPI_BITBANG ->
  Forall (fun byte => 0 <= byte < 256) array ->
  exists t,
    sendBytes cfg (Z.of_nat (length array)) array = Ok t
    /\ msb_bytes (spi_sampled clock data t) = array
    /\ length (spi_sampled clock data t) = (8 * length array)%nat.
Proof.
  intros Hp Hb. unfold sendBytes. rewrite Hp.
  pose proof (spiSoftwareSendBytes_bytes array []) as Hs.
  rewrite app_nil_r in Hs. rewrite Hs. clear Hs.
  eexists. split; [reflexivity|]. split; [now apply spi_sampled_bytes|].
  clear Hb. revert clock data. induction array as [|v a IH]; intros clock data.
  - reflexivity.
  - cbn [flat_map]. rewrite spi_sampled_byte, length_app, IH.
    unfold byte_bits, bits_down. cbn [map length]. lia.
Qed.

Lemma spi_round_trip_witness :
  exists t,
    sendBytes apa102 (Z.of_nat (length [255; 1; 2; 3])) [255; 1; 2; 3] = Ok t
    /\ msb_bytes (spi_sampled true false t) = [255; 1; 2; 3]
    /\ length (spi_sampled true false t) = (8 * length [255; 1; 2; 3])%nat.
Proof.
  apply (spi_round_trip apa102 [255; 1; 2; 3] true false); [reflexivity|].
  repeat constructor; lia.
Defined.

(** The width of the pulse of one bit on one port. *)
Lemma high_widths_bit cfg v b rest :
  0 <= b ->
  high_widths None (onePortBit cfg v b ++ rest)
  = Z.max 0 ((if Z.testbit v b then high1 cfg else high0 cfg) - sbiCycles)
    :: high_widths None rest.
Proof.
  intros Hb. unfold onePortBit. rewrite bit_test by assumption.
  assert (Hd : forall x l, high_widths (Some 0) (DELAY_CYCLES x ++ PORT_LOW DataLine :: l)
                           = Z.max 0 x :: high_widths None l).
  { intros x l. unfold DELAY_CYCLES. destruct (Z.ltb_spec 0 x); cbn; f_equal; lia. }
  assert (Hl : forall x l, high_widths None (DELAY_CYCLES x ++ l) = high_widths None l).
  { intros x l. unfold DELAY_CYCLES. destruct (0 <? x); reflexivity. }
  destruct (Z.testbit v b); cbn [negb];
    rewrite <- !app_assoc; cbn [app high_widths]; now rewrite Hd, Hl.
Qed.

Lemma high_widths_byte cfg v rest :
  high_widths None (flat_map (onePortBit cfg v) bits_down ++ rest)
  = map (fun bit : bool => Z.max 0 ((if bit then high1 cfg else high0 cfg) - sbiCycles))
        (byte_bits v)
    ++ high_widths None rest.
Proof.
  unfold byte_bits, bits_down. cbn [flat_map map].
  rewrite <- !app_assoc. rewrite !high_widths_bit by lia.
  reflexivity.
Qed.

(** X6. With one port, every bit of every byte, most significant first, is
    one pulse of the data line, held high by a delay of [high1 - sbiCycles]
    cycles for a 1 and [high0 - sbiCycles] for a 0 (none when that is not
    positive); when the two delays differ, a receiver that measures the
    pulses receives the bytes of the array. *)
Theorem onePort_round_trip cfg array :
  protocol cfg = ONE_PORT_BITBANG ->
  Forall (fun byte => 0 <= byte < 256) array ->
  Z.max 0 (high1 cfg - sbiCycles) <> Z.max 0 (high0 cfg - sbiCycles) ->
  exists t,
    sendBytes cfg (Z.of_nat (length array)) array = Ok t
    /\ high_widths None t
       = flat_map (fun v => map (fun bit : bool =>
                                   Z.max 0 ((if bit then high1 cfg else high0 cfg)
                                            - sbiCycles))
                              (byte_bits v)) array
    /\ msb_bytes (map (Z.eqb (Z.max 0 (high1 cfg - sbiCycles))) (high_widths None t))
       = array.
Proof.
  intros Hp Hb Hd. unfold sendBytes. rewrite Hp.
  pose proof (onePortSoftwareSendBytes_bytes cfg array []) as Hs.
  rewrite app_nil_r in Hs. rewrite Hs. clear Hs.
  eexists. split; [reflexivity|].
  assert (Hw : high_widths None
                 (flat_map (fun v => flat_map (onePortBit cfg v) bits_down) array)
               = flat_map (fun v => map (fun bit : bool =>
                                           Z.max 0 ((if bit then high1 cfg else high0 cfg)
                                                    - sbiCycles))
                                      (byte_bits v)) array).
  { clear Hb. induction array as [|v a IH]; [reflexivity|].
    cbn [flat_map]. now rewrite high_widths_byte, IH. }
  split; [exact Hw|]. rewrite Hw. clear Hw.
  induction Hb as [|v a Hv _ IH]; [reflexivity|].
  cbn [flat_map]. rewrite map_app, map_map.
  replace (map (fun bit : bool =>
                  Z.max 0 (high1 cfg - sbiCycles)
                  =? Z.max 0 ((if bit then high1 cfg else high0 cfg) - sbiCycles))
             (byte_bits v)) with (byte_bits v).
  - rewrite msb_bytes_byte by assumption. now rewrite IH.
  - rewrite <- (map_id (byte_bits v)) at 1. apply map_ext. intros [|].
    + symmetry. apply Z.eqb_refl.
    + symmetry. apply Z.eqb_neq. exact Hd.
Qed.

Lemma onePort_round_trip_witness :
  exists t,
    sendBytes (ws2812b ONE_PORT_BITBANG) (Z.of_nat (length [20; 10; 30])) [20; 10; 30] = Ok t
    /\ msb_bytes (map (Z.eqb (Z.max 0 (high1 (ws2812b ONE_PORT_BITBANG) - sbiCycles)))
                    (high_widths None t)) = [20; 10; 30].
Proof.
  destruct (onePort_round_trip (ws2812b ONE_PORT_BITBANG) [20; 10; 30])
    as (t & H1 & _ & H2).
  - reflexivity.
  - repeat constructor; lia.
  - vm_compute. discriminate.
  - exists t. split; assumption.
Defined.

(** ** Sessions: [begin], the sends, [end] *)

Lemma run_app_Ok cfg cs1 cs2 :
  forall st st' t,
    run cfg (cs1 ++ cs2) st = Ok (st', t) ->
    exists st1 t1 t2,
      run cfg cs1 st = Ok (st1, t1) /\ run cfg cs2 st1 = Ok (st', t2) /\ t = t1 ++ t2.
Proof.
  induction cs1 as [|c cs1 IH]; intros st st' t; cbn [app run].
  - intros H. exists st, [], t. auto.
  - destruct (run_call cfg c st) as [[sa ta]|] eqn:Ec; [|discriminate].
    cbn [mbind result_bind fst snd].
    destruct (run cfg (cs1 ++ cs2) sa) as [[sb tb]|] eqn:Er; [|discriminate].
    cbn [mbind result_bind fst snd]. intros H. inversion H; subst st' t; clear H.
    destruct (IH _ _ _ Er) as (st1 & t1 & t2 & H1 & H2 & ->).
    exists st1, (ta ++ t1), t2. rewrite H1. cbn [mbind result_bind fst snd].
    split; [reflexivity|]. split; [exact H2 | apply app_assoc].
Qed.

(** The sends leave [oldSREG] and [SREG] alone. *)
Lemma run_call_SREG cfg c st st' t :
  is_send c = true -> run_call cfg c st = Ok (st', t) ->
  oldSREG st' = oldSREG st /\ SREG st' = SREG st.
Proof.
  intros Hs. destruct c; try discriminate Hs; cbn [run_call].
  - intros H. apply send_state in H. subst. destruct (protocol cfg); auto.
  - intros H. apply send_state in H. subst. destruct (protocol cfg); auto.
  - intros H. apply send16_state in H. subst. auto.
  - unfold send_map. destruct (_ || _); [|discriminate].
    intros H. apply send_map_loop_state in H. subst. destruct (protocol cfg); auto.
Qed.

Lemma run_SREG cfg cs :
  forallb is_send cs = true ->
  forall st st' t, run cfg cs st = Ok (st', t) ->
                   oldSREG st' = oldSREG st /\ SREG st' = SREG st.
Proof.
  induction cs as [|c cs IH]; intros Hs st st' t; cbn [run].
  - intros [= <- _]. auto.
  - cbn [forallb] in Hs. apply andb_prop in Hs as [Hc Hs].
    destruct (run_call cfg c st) as [[st1 t1]|] eqn:E1; [|discriminate].
    cbn [mbind result_bind fst snd].
    destruct (run cfg cs st1) as [[st2 t2]|] eqn:E2; [|discriminate].
    cbn [mbind result_bind fst snd]. intros H. inversion H; subst st' t; clear H.
    destruct (run_call_SREG _ _ _ _ _ Hc E1) as [Ha Hb].
    destruct (IH Hs _ _ _ E2) as [Hc' Hd]. split; congruence.
Qed.

Lemma testbit_land_127 z : Z.testbit (Z.land z 127) 7 = false.
Proof. rewrite Z.land_spec. change (Z.testbit 127 7) with false. apply andb_false_r. Qed.

(** X7. A session, [begin], any sends, [end], leaves [SREG] as it was. With
    a protocol other than SPI_BITBANG the interrupts are off from [begin] on
    (bit 7 of [SREG] is clear) and the counter of pixels keeps its value; with
    SPI_BITBANG the counter is 0 afterwards. *)
Theorem session_restores_SREG cfg cs st st' t :
  forallb is_send cs = true ->
  run cfg (call_begin :: cs ++ [call_end]) st = Ok (st', t) ->
  SREG st' = SREG st
  /\ (protocol cfg <> SPI_BITBANG ->
      pixelsDisplayed st' = pixelsDisplayed st
      /\ Z.testbit (SREG (fst (begin_ cfg st))) 7 = false)
  /\ (protocol cfg = SPI_BITBANG -> pixelsDisplayed st' = 0).
Proof.
  intros Hs. cbn [run run_call mbind result_bind fst snd].
  destruct (run cfg (cs ++ [call_end]) (fst (begin_ cfg st))) as [[sb tb]|] eqn:Er;
    [|discriminate].
  cbn [mbind result_bind fst snd]. intros H. inversion H; subst st' t; clear H.
  destruct (run_app_Ok _ _ _ _ _ _ Er) as (s1 & t1 & t2 & H1 & H2 & _).
  destruct (run_SREG cfg cs Hs _ _ _ H1) as [Ho Hr].
  cbn [run run_call mbind result_bind fst snd] in H2.
  inversion H2; subst sb t2; clear H2.
  repeat split.
  - revert Ho Hr. unfold end_, begin_. destruct (protocol cfg); cbn; congruence.
  - assert (Hc : pixelsDisplayed s1 = pixelsDisplayed (fst (begin_ cfg st)))
      by (apply (run_counter cfg cs H _ _ _ H1)).
    revert Hc. unfold end_, begin_. destruct (protocol cfg); cbn; congruence.
  - unfold begin_. destruct (protocol cfg); try congruence; apply testbit_land_127.
  - intros Hp. unfold end_. rewrite Hp. reflexivity.
Qed.

Lemma session_restores_SREG_witness :
  match run (ws2812b ONE_PORT_BITBANG)
          (call_begin :: [call_send grb 1 [1; 2; 3]; call_send rgb 1 [4; 5; 6]] ++ [call_end])
          (initial_state 128) with
  | Ok (st', _) => SREG st' = 128
  | Fail _ => False
  end.
Proof.
  destruct (run _ _ _) as [[st' t]|] eqn:E; [|vm_compute in E; discriminate].
  apply (session_restores_SREG (ws2812b ONE_PORT_BITBANG)
           [call_send grb 1 [1; 2; 3]; call_send rgb 1 [4; 5; 6]] _ _ _ eq_refl E).
Defined.

(** X8. Sessions do not nest: when [begin] is called again before [end],
    the saved [SREG] is overwritten by the one with interrupts off, and after
    both [end]s the interrupts stay off, whatever [SREG] was. *)
Theorem nested_sessions_lose_SREG cfg cs1 cs2 cs3 st st' t :
  protocol cfg <> SPI_BITBANG ->
  forallb is_send cs1 = true -> forallb is_send cs2 = true ->
  forallb is_send cs3 = true ->
  run cfg (call_begin :: cs1 ++ call_begin :: cs2 ++ call_end :: cs3 ++ [call_end]) st
  = Ok (st', t) ->
  SREG st' = Z.land (SREG st) 127 /\ Z.testbit (SREG st') 7 = false.
Proof.
  intros Hp Hs1 Hs2 Hs3. cbn [run run_call mbind result_bind fst snd].
  destruct (run cfg _ (fst (begin_ cfg st))) as [[sb tb]|] eqn:Er; [|discriminate].
  cbn [mbind result_bind fst snd]. intros H. inversion H; subst st' t; clear H.
  destruct (run_app_Ok _ _ _ _ _ _ Er) as (s1 & t1 & t2 & H1 & H2 & _). clear Er.
  destruct (run_SREG cfg cs1 Hs1 _ _ _ H1) as [_ Hr1].
  cbn [run run_call mbind result_bind fst snd] in H2.
  destruct (run cfg _ (fst (begin_ cfg s1))) as [[sc tc]|] eqn:Er; [|discriminate].
  cbn [mbind result_bind fst snd] in H2. inversion H2; subst sb t2; clear H2.
  destruct (run_app_Ok _ _ _ _ _ _ Er) as (s2 & t3 & t4 & H3 & H4 & _). clear Er.
  destruct (run_SREG cfg cs2 Hs2 _ _ _ H3) as [Ho2 _].
  cbn [run run_call mbind result_bind fst snd] in H4.
  destruct (run cfg _ (fst (end_ cfg s2))) as [[sd td]|] eqn:Er; [|discriminate].
  cbn [mbind result_bind fst snd] in H4. inversion H4; subst sc t4; clear H4.
  destruct (run_app_Ok _ _ _ _ _ _ Er) as (s3 & t5 & t6 & H5 & H6 & _). clear Er.
  destruct (run_SREG cfg cs3 Hs3 _ _ _ H5) as [Ho3 _].
  cbn [run run_call mbind result_bind fst snd] in H6.
  inversion H6; subst sd t6; clear H6.
  assert (E : SREG (fst (end_ cfg s3)) = Z.land (SREG st) 127).
  { revert Hr1 Ho2 Ho3. unfold end_, begin_.
    destruct (protocol cfg); cbn; congruence. }
  split; [exact E|]. rewrite E. apply testbit_land_127.
Qed.

Lemma nested_sessions_lose_SREG_witness :
  match run (ws2812b ONE_PORT_BITBANG)
          (call_begin :: [] ++ call_begin :: [call_send grb 1 [1; 2; 3]]
             ++ call_end :: [] ++ [call_end])
          (initial_state 128) with
  | Ok (st', _) => SREG st' = 0
  | Fail _ => False
  end.
Proof.
  destruct (run _ _ _) as [[st' t]|] eqn:E; [|vm_compute in E; discriminate].
  apply (nested_sessions_lose_SREG (ws2812b ONE_PORT_BITBANG) []
           [call_send grb 1 [1; 2; 3]] [] (initial_state 128) st' t
           ltac:(discriminate) eq_refl eq_refl eq_refl E).
Defined.

(** The events of a typed send do not depend on the state. *)
Lemma send_events cfg F numPixels array st st1 t :
  send cfg F numPixels array st = Ok (st1, t) ->
  forall st2, exists st3, send cfg F numPixels array st2 = Ok (st3, t).
Proof.
  unfold send.
  destruct (if type F =? type (pixelClass cfg) then _ else _) as [t'|]; [|discriminate].
  cbn [mbind result_bind]. intros [= _ <-] st2. eauto.
Qed.

Lemma begin_SPI cfg st :
  protocol cfg = SPI_BITBANG -> begin_ cfg st = (st, spiSoftwareSendFrame 4 false).
Proof. intros Hp. unfold begin_. now rewrite Hp. Qed.

Lemma begin_other cfg st :
  protocol cfg <> SPI_BITBANG ->
  begin_ cfg st = ({| pixelsDisplayed := pixelsDisplayed st;
                      oldSREG := SREG st;
                      SREG := Z.land (SREG st) 127 |},
                   [delay (minMsRefresh cfg)]).
Proof. intros Hp. unfold begin_. destruct (protocol cfg); congruence. Qed.

Lemma end_SPI cfg st :
  protocol cfg = SPI_BITBANG ->
  end_ cfg st = (with_pixelsDisplayed st 0, spiSoftwareSendFrame (end_frame_count st) true).
Proof. intros Hp. unfold end_. now rewrite Hp. Qed.

Lemma end_other cfg st :
  protocol cfg <> SPI_BITBANG ->
  end_ cfg st = ({| pixelsDisplayed := pixelsDisplayed st;
                    oldSREG := oldSREG st;
                    SREG := oldSREG st |}, []).
Proof. intros Hp. unfold end_. destruct (protocol cfg); congruence. Qed.

Lemma send_state_SPI cfg F numPixels array st st' t :
  protocol cfg = SPI_BITBANG ->
  send cfg F numPixels array st = Ok (st', t) ->
  st' = with_pixelsDisplayed st (uint16 (pixelsDisplayed st + numPixels)).
Proof. intros Hp H. apply send_state in H. now rewrite Hp in H. Qed.

Lemma send_state_other cfg F numPixels array st st' t :
  protocol cfg <> SPI_BITBANG ->
  send cfg F numPixels array st = Ok (st', t) -> st' = st.
Proof. intros Hp H. apply send_state in H. destruct (protocol cfg); congruence. Qed.

(** X9. [draw] leaves [SREG] as it was, and the state it leaves is one it
    returns to: drawing again from there ends in the same state, with the
    same events when the protocol is not SPI_BITBANG or the counter was 0
    before the first [draw]. *)
Theorem draw_repeatable cfg F count array st st1 t1 :
  draw cfg F count array st = Ok (st1, t1) ->
  SREG st1 = SREG st
  /\ exists t2,
       draw cfg F count array st1 = Ok (st1, t2)
       /\ (protocol cfg <> SPI_BITBANG \/ pixelsDisplayed st = 0 -> t2 = t1).
Proof.
  unfold draw.
  destruct (send cfg F count array (fst (begin_ cfg st))) as [[sa ta]|] eqn:E1;
    [|discriminate].
  cbn [mbind result_bind fst snd]. intros H. inversion H; subst st1 t1; clear H.
  destruct (send_events _ _ _ _ _ _ _ E1 (fst (begin_ cfg (fst (end_ cfg sa)))))
    as (sb & E2).
  rewrite E2. cbn [mbind result_bind fst snd].
  destruct (decide (protocol cfg = SPI_BITBANG)) as [Hp|Hp].
  - apply (send_state_SPI _ _ _ _ _ _ _ Hp) in E1, E2.
    rewrite !(begin_SPI _ _ Hp), !(end_SPI _ _ Hp) in *. cbn [fst snd] in *.
    subst sb sa. unfold with_pixelsDisplayed, end_frame_count.
    cbn [pixelsDisplayed oldSREG SREG].
    split; [reflexivity|]. eexists. split; [reflexivity|].
    intros [Hc|Hc]; [congruence|]. now rewrite Hc.
  - apply (send_state_other _ _ _ _ _ _ _ Hp) in E1, E2.
    rewrite !(begin_other _ _ Hp), !(end_other _ _ Hp) in *. cbn [fst snd] in *.
    subst sb sa. cbn [pixelsDisplayed oldSREG SREG].
    split; [reflexivity|]. eexists. split; reflexivity.
Qed.

Lemma draw_repeatable_witness :
  match draw apa102 hbgr 2 [255; 1; 2; 3; 255; 4; 5; 6] (initial_state 128) with
  | Ok (st1, _) => SREG st1 = 128
  | Fail _ => False
  end.
Proof.
  destruct (draw _ _ _ _ _) as [[st1 t1]|] eqn:E; [|vm_compute in E; discriminate].
  destruct (draw_repeatable _ _ _ _ _ _ _ E) as [H _]. exact H.
Defined.

(** ** [grey] and [clear] *)

Lemma sendBytes_bytewise cfg :
  protocol cfg = ONE_PORT_BITBANG \/ protocol cfg = SPI_BITBANG ->
  exists f : Z -> list event,
    forall a rest, sendBytes cfg (Z.of_nat (length a)) (a ++ rest) = Ok (flat_map f a).
Proof.
  unfold sendBytes. intros [-> | ->].
  - eexists. intros a rest. apply onePortSoftwareSendBytes_bytes.
  - eexists. intros a rest. apply spiSoftwareSendBytes_bytes.
Qed.

(** The loop of [grey]: [n] sends of one native pixel. *)
Lemma run_replicate_send_uint8 cfg (f : Z -> list event) arr :
  (forall a rest, sendBytes cfg (Z.of_nat (length a)) (a ++ rest) = Ok (flat_map f a)) ->
  Z.of_nat (length arr) = stripBPP cfg ->
  forall (n : nat) st,
  exists stn,
    run cfg (replicate n (call_send_uint8 (stripBPP cfg) arr)) st
    = Ok (stn, flat_map f (concat (replicate n arr)))
    /\ oldSREG stn = oldSREG st /\ SREG stn = SREG st
    /\ (protocol cfg <> SPI_BITBANG -> pixelsDisplayed stn = pixelsDisplayed st)
    /\ (protocol cfg = SPI_BITBANG ->
        uint16 (pixelsDisplayed stn + 1) = uint16 (pixelsDisplayed st + Z.of_nat n + 1)).
Proof.
  intros Hf Harr. pose proof (stripBPP_cases cfg) as Hbpp.
  assert (Hone : forall st,
            send_uint8 cfg (stripBPP cfg) arr st
            = Ok (match protocol cfg with
                  | SPI_BITBANG =>
                      with_pixelsDisplayed st (uint16 (pixelsDisplayed st + 1))
                  | _ => st
                  end, flat_map f arr)).
  { intros st. unfold send_uint8, send. rewrite Z.eqb_refl.
    rewrite Z.div_same by lia. rewrite Z.mul_1_l, (uint16_small (stripBPP cfg)) by lia.
    rewrite <- Harr. rewrite <- (app_nil_r arr) at 2. rewrite Hf. reflexivity. }
  induction n as [|n IH]; intros st.
  - exists st. cbn [replicate run concat flat_map]. repeat split; auto.
    intros _. f_equal. lia.
  - cbn [replicate run run_call concat]. rewrite Hone. cbn [mbind result_bind fst snd].
    set (s1 := match protocol cfg with
               | SPI_BITBANG =>
                   with_pixelsDisplayed st (uint16 (pixelsDisplayed st + 1))
               | _ => st
               end).
    assert (Hs1 : oldSREG s1 = oldSREG st /\ SREG s1 = SREG st
                  /\ (protocol cfg <> SPI_BITBANG -> pixelsDisplayed s1 = pixelsDisplayed st)
                  /\ (protocol cfg = SPI_BITBANG ->
                      pixelsDisplayed s1 = uint16 (pixelsDisplayed st + 1))).
    { subst s1. destruct (protocol cfg); repeat split; intros; congruence. }
    destruct Hs1 as (Ho1 & Hr1 & Hc1 & Hp1).
    destruct (IH s1) as (stn & Hrun & Ho & Hs & Hc & Hspi).
    exists stn. rewrite Hrun. cbn [mbind result_bind fst snd].
    rewrite flat_map_app. split; [reflexivity|].
    split; [congruence|]. split; [congruence|]. split.
    + intros Hp. rewrite (Hc Hp). apply (Hc1 Hp).
    + intros Hp. rewrite (Hspi Hp), (Hp1 Hp).
      rewrite <- Z.add_assoc, uint16_add_l. f_equal. lia.
Qed.

Lemma concat_replicate_replicate {X : Type} (n m : nat) (x : X) :
  concat (replicate n (replicate m x)) = replicate (n * m) x.
Proof.
  induction n as [|n IH]; [reflexivity|].
  cbn [replicate concat Nat.mul]. now rewrite IH, replicate_add.
Qed.

(** X10. With one port and with SPI, [grey] is a [draw] of a buffer of
    [numPixels] pixels whose bytes all are [value]: the same events and the
    same state, and no failure. *)
Theorem grey_is_draw cfg numPixels value st :
  protocol cfg = ONE_PORT_BITBANG \/ protocol cfg = SPI_BITBANG ->
  0 <= numPixels -> numPixels * stripBPP cfg < 65536 ->
  grey cfg numPixels value st
  = draw_uint8 cfg (numPixels * stripBPP cfg)
      (replicate (Z.to_nat (numPixels * stripBPP cfg)) value) st
  /\ exists st' t, grey cfg numPixels value st = Ok (st', t).
Proof.
  intros Hp Hn Hfit. pose proof (stripBPP_cases cfg) as Hbpp.
  destruct (sendBytes_bytewise cfg Hp) as (f & Hf).
  set (bpp := stripBPP cfg) in *.
  set (s0 := fst (begin_ cfg st)).
  (* the draw *)
  assert (Hdraw : draw_uint8 cfg (numPixels * bpp)
                    (replicate (Z.to_nat (numPixels * bpp)) value) st
                  = Ok (fst (end_ cfg (match protocol cfg with
                                       | SPI_BITBANG =>
                                           with_pixelsDisplayed s0
                                             (uint16 (pixelsDisplayed s0 + numPixels))
                                       | _ => s0
                                       end)),
                        snd (begin_ cfg st)
                        ++ flat_map f (replicate (Z.to_nat (numPixels * bpp)) value)
                        ++ snd (end_ cfg (match protocol cfg with
                                          | SPI_BITBANG =>
                                              with_pixelsDisplayed s0
                                                (uint16 (pixelsDisplayed s0 + numPixels))
                                          | _ => s0
                                          end)))).
  { unfold draw_uint8, draw, send. fold bpp. fold s0. rewrite Z.eqb_refl.
    rewrite Z.div_mul by lia. rewrite (uint16_small (numPixels * bpp)) by nia.
    pose proof (Hf (replicate (Z.to_nat (numPixels * bpp)) value) []) as Hs.
    rewrite app_nil_r, length_replicate, Z2Nat.id in Hs by nia.
    rewrite Hs. reflexivity. }
  (* the loop of grey *)
  assert (Hgrey : forall arr,
            arr = replicate (Z.to_nat bpp) value ->
            exists stn,
              run cfg (replicate (Z.to_nat numPixels) (call_send_uint8 bpp arr)) s0
              = Ok (stn, flat_map f (replicate (Z.to_nat (numPixels * bpp)) value))
              /\ end_ cfg stn
                 = end_ cfg (match protocol cfg with
                             | SPI_BITBANG =>
                                 with_pixelsDisplayed s0
                                   (uint16 (pixelsDisplayed s0 + numPixels))
                             | _ => s0
                             end)).
  { intros arr ->.
    destruct (run_replicate_send_uint8 cfg f (replicate (Z.to_nat bpp) value) Hf
                ltac:(rewrite length_replicate; fold bpp; lia) (Z.to_nat numPixels) s0)
      as (stn & Hrun & Ho & Hs & Hc & Hspi).
    exists stn. fold bpp in Hrun. rewrite Hrun.
    rewrite concat_replicate_replicate, <- Z2Nat.inj_mul by lia.
    split; [reflexivity|].
    destruct (decide (protocol cfg = SPI_BITBANG)) as [Hq|Hq].
    - rewrite !(end_SPI _ _ Hq), Hq. unfold end_frame_count, with_pixelsDisplayed.
      cbn [pixelsDisplayed oldSREG SREG].
      rewrite (Hspi Hq), Ho, Hs, Z2Nat.id, uint16_add_l by lia. reflexivity.
    - rewrite !(end_other _ _ Hq).
      replace (match protocol cfg with
               | SPI_BITBANG =>
                   with_pixelsDisplayed s0 (uint16 (pixelsDisplayed s0 + numPixels))
               | _ => s0
               end) with s0 by (destruct (protocol cfg); congruence).
      rewrite (Hc Hq), Ho. reflexivity. }
  assert (Hg : grey cfg numPixels value st
               = draw_uint8 cfg (numPixels * bpp)
                   (replicate (Z.to_nat (numPixels * bpp)) value) st).
  { rewrite Hdraw. unfold grey. fold bpp. fold s0.
    destruct Hbpp as [E|E]; rewrite E in *.
    - destruct (Hgrey [value; value; value] eq_refl) as (stn & Hrun & Hend).
      cbn [Z.leb Z.eqb Z.compare Pos.compare Pos.compare_cont andb Pos.eqb].
      rewrite Hrun. cbn [mbind result_bind fst snd]. rewrite Hend. reflexivity.
    - destruct (Hgrey [value; value; value; value] eq_refl) as (stn & Hrun & Hend).
      cbn [Z.leb Z.eqb Z.compare Pos.compare Pos.compare_cont andb Pos.eqb].
      rewrite Hrun. cbn [mbind result_bind fst snd]. rewrite Hend. reflexivity. }
  split; [exact Hg|]. rewrite Hg, Hdraw. eauto.
Qed.

Lemma grey_is_draw_witness :
  grey apa102 2 7 (initial_state 0)
  = draw_uint8 apa102 (2 * stripBPP apa102)
      (replicate (Z.to_nat (2 * stripBPP apa102)) 7) (initial_state 0).
Proof.
  destruct (grey_is_draw apa102 2 7 (initial_state 0)) as [H _].
  - now right.
  - lia.
  - reflexivity.
  - exact H.
Defined.

(** X11. With two ports, [grey] and [clear] of at least one pixel read
    outside their local array: the second port's byte is looked for past the
    [stripBPP] bytes the array has. *)
Theorem grey_two_port_reads_outside cfg numPixels value st :
  protocol cfg = TWO_PORT_SPLIT_BITBANG \/ protocol cfg = TWO_PORT_INTLV_BITBANG ->
  0 < numPixels ->
  grey cfg numPixels value st = Fail out_of_bounds
  /\ clear cfg numPixels st = Fail out_of_bounds.
Proof.
  intros Hp Hn.
  assert (H : forall v, grey cfg numPixels v st = Fail out_of_bounds).
  { intros v. unfold grey.
    destruct (Z.to_nat numPixels) as [|n] eqn:En; [lia|].
    cbn [replicate run run_call].
    destruct cfg as [h1 l1 h0 l0 ms dp dpin cp cpin pc pr]. cbn [protocol] in Hp.
    destruct Hp as [-> | ->]; destruct pc; vm_compute; reflexivity. }
  split; [apply H | apply (H 0)].
Qed.

Lemma grey_two_port_reads_outside_witness :
  grey (ws2812b TWO_PORT_SPLIT_BITBANG) 1 0 (initial_state 0) = Fail out_of_bounds.
Proof.
  destruct (grey_two_port_reads_outside (ws2812b TWO_PORT_SPLIT_BITBANG) 1 0
              (initial_state 0)) as [H _].
  - now left.
  - lia.
  - exact H.
Defined.

(** ** Converted pixels, one by one *)

Lemma rd_drop a k j : 0 <= k -> 0 <= j -> rd (drop (Z.to_nat k) a) j = rd a (k + j).
Proof.
  intros Hk Hj. unfold rd.
  replace (j <? 0) with false by (symmetry; apply Z.ltb_ge; lia).
  replace (k + j <? 0) with false by (symmetry; apply Z.ltb_ge; lia).
  rewrite lookup_drop, Z2Nat.inj_add by lia. reflexivity.
Qed.

Lemma rd_element_at a size i off :
  0 <= i -> 0 <= size -> 0 <= off ->
  rd (element_at a size i) (0 * size + off) = rd a (i * size + off).
Proof.
  intros Hi Hs Ho. unfold element_at. rewrite rd_drop by nia. f_equal.
Qed.

Lemma off_nonneg F : 0 <= off_r F /\ 0 <= off_g F /\ 0 <= off_b F /\ 0 <= sizeof F.
Proof. destruct F; cbn; lia. Qed.

(** The conversion of [array[i]] reads that pixel only. *)
Lemma convert_element_at cfg F array i p :
  0 <= i ->
  convert cfg F (element_at array (sizeof F) i) 0 p = convert cfg F array i p.
Proof.
  intros Hi. destruct (off_nonneg F) as (Hr & Hg & Hb & Hs). unfold convert.
  rewrite !rd_element_at by lia. reflexivity.
Qed.

Ltac destruct_reads_in H :=
  repeat match type of H with
         | context [rd ?a ?e] => destruct (rd a e); try discriminate H
         end.

Ltac destruct_reads :=
  repeat match goal with
         | |- context [rd ?a ?e] => destruct (rd a e)
         end.

(** The pixel [p] that lives across the turns of the conversion loop keeps
    nothing of the pixels before: what one turn makes of it is what it makes
    of the defaults. *)
Lemma convert_forgets cfg F array i j q :
  convert cfg F array i (native_defaults cfg) = Ok q ->
  convert cfg F array j q = convert cfg F array j (native_defaults cfg).
Proof.
  unfold convert, native_defaults. intros H.
  destruct (pixelClass cfg), F;
    cbv -[rd uint8 Z.mul Z.add] in H |- *;
    destruct_reads_in H; injection H as <-; destruct_reads; reflexivity.
Qed.

(** The state after [k] typed sends of one pixel each. *)
Lemma with_pixelsDisplayed_same st :
  0 <= pixelsDisplayed st < 65536 ->
  with_pixelsDisplayed st (uint16 (pixelsDisplayed st + 0)) = st.
Proof.
  intros H. rewrite Z.add_0_r, uint16_small by assumption. now destruct st.
Qed.

Lemma send_converted_run cfg F array ix :
  Forall (fun i => 0 <= i) ix ->
  forall st p,
    0 <= pixelsDisplayed st < 65536 ->
    (forall j, convert cfg F array j p = convert cfg F array j (native_defaults cfg)) ->
    type F <> type (pixelClass cfg) ->
    run cfg (map (fun i => call_send F 1 (element_at array (sizeof F) i)) ix) st
    = (t ← send_converted cfg F array ix p;
       Ok (match protocol cfg with
           | SPI_BITBANG =>
               with_pixelsDisplayed st
                 (uint16 (pixelsDisplayed st + Z.of_nat (length ix)))
           | _ => st
           end, t)).
Proof.
  induction 1 as [|i ix Hi _ IH]; intros st p Hst Hp Ht.
  - cbn [map run send_converted mbind result_bind length Z.of_nat].
    rewrite with_pixelsDisplayed_same by assumption.
    now destruct (protocol cfg).
  - cbn [map run run_call send_converted]. unfold send at 1.
    replace (type F =? type (pixelClass cfg)) with false
      by (symmetry; apply Z.eqb_neq; exact Ht).
    change (seqZ 0 1) with [0]. cbn [send_converted].
    rewrite convert_element_at, <- Hp by assumption.
    destruct (convert cfg F array i p) as [p'|] eqn:Ec; [|reflexivity].
    cbn [mbind result_bind].
    destruct (sendBytes cfg (stripBPP cfg) p') as [t1|]; [|reflexivity].
    cbn [mbind result_bind fst snd]. rewrite app_nil_r.
    rewrite (IH _ p').
    + destruct (send_converted cfg F array ix p') as [ts|]; [|reflexivity].
      cbn [mbind result_bind fst snd]. do 2 f_equal.
      destruct (protocol cfg); try reflexivity.
      unfold with_pixelsDisplayed. cbn [pixelsDisplayed oldSREG SREG length].
      f_equal. rewrite uint16_add_l. f_equal. lia.
    + destruct (protocol cfg); try assumption. cbn. apply uint16_range.
    + intros j. rewrite Hp in Ec. apply (convert_forgets _ _ _ _ _ _ Ec).
    + exact Ht.
Qed.

(** X12. A send of [numPixels] pixels of a format other than the native one
    is [numPixels] sends of one pixel, with every protocol: the same events,
    the same state and the same failure. *)
Theorem send_converted_one_by_one cfg F numPixels array st :
  type F <> type (pixelClass cfg) ->
  0 <= numPixels -> 0 <= pixelsDisplayed st < 65536 ->
  send cfg F numPixels array st
  = run cfg (map (fun i => call_send F 1 (element_at array (sizeof F) i))
               (seqZ 0 numPixels)) st.
Proof.
  intros Ht Hn Hst.
  rewrite (send_converted_run cfg F array (seqZ 0 numPixels)) with (p := native_defaults cfg);
    try assumption; try reflexivity.
  - unfold send.
    replace (type F =? type (pixelClass cfg)) with false
      by (symmetry; apply Z.eqb_neq; exact Ht).
    rewrite length_seqZ, Z2Nat.id by lia. reflexivity.
  - apply Forall_seqZ. intros; lia.
Qed.

Lemma send_converted_one_by_one_witness :
  send apa102 rgb 2 [1; 2; 3; 4; 5; 6] (initial_state 0)
  = run apa102 (map (fun i => call_send rgb 1 (element_at [1; 2; 3; 4; 5; 6] (sizeof rgb) i))
                  (seqZ 0 2)) (initial_state 0).
Proof.
  apply (send_converted_one_by_one apa102 rgb 2 [1; 2; 3; 4; 5; 6] (initial_state 0)).
  - discriminate.
  - lia.
  - cbn. lia.
Defined.

(** ** The eight ports *)

Lemma testbit_fold_lor l : forall a j,
  Z.testbit (fold_left Z.lor l a) j = Z.testbit a j || existsb (fun x => Z.testbit x j) l.
Proof.
  induction l as [|x l IH]; intros a j; cbn [fold_left existsb].
  - now rewrite orb_false_r.
  - rewrite IH, Z.lor_spec. now rewrite orb_assoc.
Qed.

Lemma testbit_shiftl_1 b j : 0 <= b -> Z.testbit (Z.shiftl 1 b) j = (j =? b).
Proof.
  intros Hb. destruct (Z.ltb_spec j 0) as [Hj|Hj].
  - rewrite Z.testbit_neg_r by assumption. symmetry. apply Z.eqb_neq. lia.
  - rewrite Z.shiftl_spec by assumption.
    destruct (Z.eqb_spec j b) as [->|Hne].
    + now rewrite Z.sub_diag.
    + destruct (Z.ltb_spec j b).
      * apply Z.testbit_neg_r. lia.
      * apply (testbit_above 1 1); lia.
Qed.

Lemma land_bit_test r m : 0 <= m -> (Z.land r (Z.shiftl 1 m) =? 0) = negb (Z.testbit r m).
Proof.
  intros Hm. destruct (Z.testbit r m) eqn:E; cbn [negb].
  - apply Z.eqb_neq. intros H.
    assert (Hb : Z.testbit (Z.land r (Z.shiftl 1 m)) m = true)
      by (now rewrite Z.land_spec, testbit_shiftl_1, E, Z.eqb_refl).
    rewrite H, Z.testbit_0_l in Hb. discriminate.
  - apply Z.eqb_eq. apply Z.bits_inj'. intros n Hn.
    rewrite Z.land_spec, testbit_shiftl_1, Z.testbit_0_l by assumption.
    destruct (Z.eqb_spec n m) as [->|]; [now rewrite E | apply andb_false_r].
Qed.

(** Bit [j] of [bitmask] in [case b] is bit [(7 - j + b) mod 8] of [rj]. *)
Lemma eightPortBitmask_bit r b j :
  0 <= j ->
  Z.testbit (eightPortBitmask r b) j
  = match r !! Z.to_nat j with
    | Some rj => Z.testbit rj ((7 - j + b) mod 8)
    | None => false
    end.
Proof.
  intros Hj. unfold eightPortBitmask.
  rewrite testbit_fold_lor, Z.testbit_0_l, orb_false_l.
  apply Bool.eq_iff_eq_true. rewrite existsb_exists. split.
  - intros (x & Hin & Hx). apply list_elem_of_In, elem_of_lookup_imap in Hin.
    destruct Hin as (i & y & -> & Hy).
    rewrite land_bit_test in Hx by (apply Z.mod_pos_bound; lia).
    destruct (Z.testbit y ((7 - Z.of_nat i + b) mod 8)) eqn:E; cbn [negb] in Hx.
    + rewrite testbit_shiftl_1 in Hx by lia. apply Z.eqb_eq in Hx. subst j.
      now rewrite Nat2Z.id, Hy.
    + now rewrite Z.testbit_0_l in Hx.
  - destruct (r !! Z.to_nat j) as [rj|] eqn:E; [|discriminate]. intros Hb.
    exists (Z.shiftl 1 j). split.
    + apply list_elem_of_In, elem_of_lookup_imap. exists (Z.to_nat j), rj.
      split; [|exact E].
      rewrite land_bit_test by (apply Z.mod_pos_bound; lia).
      rewrite Z2Nat.id, Hb by assumption. reflexivity.
    + now rewrite testbit_shiftl_1, Z.eqb_refl.
Qed.

Lemma port_writes_app t1 t2 : port_writes (t1 ++ t2) = port_writes t1 ++ port_writes t2.
Proof. unfold port_writes. apply flat_map_app. Qed.

Lemma port_writes_DELAY_CYCLES n : port_writes (DELAY_CYCLES n) = [].
Proof. unfold DELAY_CYCLES. now destruct (0 <? n). Qed.

Section eightPortTurns.
Variable cfg : strip.
Variable array : list Z.
Variable blockSize : Z.

(** The turn with [b = 7 - k mod 8] takes the registers of turn [k] to those
    of turn [k + 1]. *)
Lemma eightPortRegisters_next k s v :
  0 <= k ->
  eightPortRegisters cfg array blockSize k s ->
  (eightPortLoads cfg (7 - k mod 8) = true ->
   rd array (uint16 (k / 8 + (7 - k mod 8 - dataPortPin cfg) * blockSize)) = Ok v) ->
  eightPortRegisters cfg array blockSize (k + 1)
    (if eightPortLoads cfg (7 - k mod 8)
     then (<[Z.to_nat (7 - k mod 8) := v]> (fst s),
           Z.lor (snd s) (Z.shiftl 1 (7 - k mod 8)))
     else s).
Proof.
  intros Hk (Hlen & Hon & Hld & Hz) Hv.
  assert (Hb : 0 <= 7 - k mod 8 <= 7) by (pose proof (Z.mod_pos_bound k 8); lia).
  assert (Hbk : k mod 8 <= k) by (apply Z.mod_le; lia).
  assert (Hsame : forall j, 0 <= j <= 7 -> j <> 7 - k mod 8 -> 7 - j < k + 1 ->
                            7 - j < k /\ (k + 1 - 1 - (7 - j)) / 8 = (k - 1 - (7 - j)) / 8).
  { intros j Hj Hne Hlt. split.
    - destruct (Z.eq_dec (7 - j) k) as [E|]; [|lia].
      exfalso. apply Hne. rewrite Z.mod_small; lia.
    - Z.to_euclidean_division_equations. lia. }
  destruct (eightPortLoads cfg (7 - k mod 8)) eqn:El.
  - specialize (Hv eq_refl). unfold eightPortRegisters. cbn [fst snd].
    split; [now rewrite length_insert|]. split; [|split].
    + intros j Hj. rewrite Z.lor_spec, testbit_shiftl_1 in Hj by lia.
      apply orb_true_iff in Hj. destruct Hj as [Hj|Hj].
      * destruct (Hon j Hj) as (? & ? & ?). repeat split; try assumption; lia.
      * apply Z.eqb_eq in Hj. subst j. repeat split; try assumption; lia.
    + intros j Hj Hl Hlt. rewrite Z.lor_spec, testbit_shiftl_1 by lia.
      destruct (Z.eq_dec j (7 - k mod 8)) as [->|Hne].
      * rewrite Z.eqb_refl, orb_true_r. split; [reflexivity|].
        exists v. split; [apply list_lookup_insert_eq; lia|].
        rewrite <- Hv. do 3 f_equal.
        Z.to_euclidean_division_equations. lia.
      * destruct (Hsame j Hj Hne Hlt) as [Hlt' ->].
        destruct (Hld j Hj Hl Hlt') as (Hbit & r & Hr & Hrd).
        rewrite Hbit. split; [reflexivity|].
        exists r. split; [|exact Hrd].
        rewrite list_lookup_insert_ne by lia. exact Hr.
    + intros j r Hj Hr Hno.
      destruct (Z.eq_dec j (7 - k mod 8)) as [->|Hne].
      * destruct Hno; [congruence | lia].
      * rewrite list_lookup_insert_ne in Hr by lia.
        apply (Hz j r Hj Hr). destruct Hno; [now left | right; lia].
  - unfold eightPortRegisters. split; [exact Hlen|]. split; [|split].
    + intros j Hj. destruct (Hon j Hj) as (? & ? & ?). repeat split; try assumption; lia.
    + intros j Hj Hl Hlt.
      assert (Hne : j <> 7 - k mod 8) by congruence.
      destruct (Hsame j Hj Hne Hlt) as [Hlt' ->]. now apply Hld.
    + intros j r Hj Hr Hno. apply (Hz j r Hj Hr). destruct Hno; [now left | right; lia].
Qed.

(** What a turn writes follows from the registers it leaves. *)
Lemma eightPortRegisters_written k s :
  0 <= k ->
  eightPortRegisters cfg array blockSize (k + 1) s ->
  eightPortWritten cfg array blockSize k (snd s) (eightPortBitmask (fst s) (7 - k mod 8)).
Proof.
  intros Hk (Hlen & Hon & Hld & Hz). split; [|split].
  - intros j Hj. destruct (Hon j Hj) as (? & ? & ?). repeat split; try assumption; lia.
  - intros j Hj.
    destruct (Z.ltb_spec j 0) as [Hneg|Hpos];
      [now rewrite Z.testbit_neg_r in Hj by assumption|].
    rewrite eightPortBitmask_bit in Hj by assumption.
    destruct (fst s !! Z.to_nat j) as [r|] eqn:Er; [|discriminate].
    assert (Hlt : (Z.to_nat j < 8)%nat)
      by (rewrite <- Hlen; apply lookup_lt_is_Some; eauto).
    destruct (eightPortLoads cfg j) eqn:El.
    + destruct (Z.le_gt_cases (k + 1) (7 - j)) as [Hle|Hgt].
      * rewrite (Hz j r Hpos Er (or_intror Hle)), Z.testbit_0_l in Hj. discriminate.
      * repeat split; lia.
    + rewrite (Hz j r Hpos Er (or_introl El)), Z.testbit_0_l in Hj. discriminate.
  - intros j Hj Hl Hle.
    destruct (Hld j Hj Hl ltac:(lia)) as (Hbit & r & Hr & Hrd).
    split; [exact Hbit|]. exists r.
    replace (k + 1 - 1 - (7 - j)) with (k - (7 - j)) in Hrd by lia.
    split; [exact Hrd|].
    rewrite eightPortBitmask_bit, Hr by lia. f_equal.
    Z.to_euclidean_division_equations. lia.
Qed.

(** One turn. *)
Lemma eightPortBit_turn k s s' ev :
  0 <= k ->
  eightPortRegisters cfg array blockSize k s ->
  eightPortBit cfg array blockSize (k / 8) s (7 - k mod 8) = Ok (s', ev) ->
  eightPortRegisters cfg array blockSize (k + 1) s'
  /\ exists onMask bitmask,
       port_writes ev = [onMask; bitmask; 0]
       /\ eightPortWritten cfg array blockSize k onMask bitmask.
Proof.
  intros Hk Hinv. unfold eightPortBit. intros H.
  assert (Hs' : exists v,
             (eightPortLoads cfg (7 - k mod 8) = true ->
              rd array (uint16 (k / 8 + (7 - k mod 8 - dataPortPin cfg) * blockSize)) = Ok v)
             /\ s' = (if eightPortLoads cfg (7 - k mod 8)
                      then (<[Z.to_nat (7 - k mod 8) := v]> (fst s),
                            Z.lor (snd s) (Z.shiftl 1 (7 - k mod 8)))
                      else s)
             /\ ev = [PORT_WRITE (snd s')] ++ DELAY_CYCLES (high0 cfg - sbiCycles)
                     ++ [PORT_WRITE (eightPortBitmask (fst s') (7 - k mod 8))]
                     ++ DELAY_CYCLES (high1 cfg - high0 cfg + sbiCycles)
                     ++ [PORT_WRITE 0] ++ DELAY_CYCLES (low0 cfg - cbiCycles - 20)).
  { destruct (eightPortLoads cfg (7 - k mod 8)).
    - destruct (rd array _) as [v|]; [|discriminate].
      cbn [mbind result_bind] in H. injection H as <- <-. exists v. auto.
    - cbn [mbind result_bind] in H. injection H as <- <-. exists 0.
      split; [discriminate | auto]. }
  destruct Hs' as (v & Hv & Es & Eev).
  assert (Hnext : eightPortRegisters cfg array blockSize (k + 1) s')
    by (rewrite Es; now apply eightPortRegisters_next).
  split; [exact Hnext|].
  exists (snd s'), (eightPortBitmask (fst s') (7 - k mod 8)). split.
  - rewrite Eev. rewrite !port_writes_app, !port_writes_DELAY_CYCLES. reflexivity.
  - now apply eightPortRegisters_written.
Qed.

(** All the turns from [k0] on. *)
Lemma eightPortLoop_turns cbs : forall k0 s t,
  0 <= k0 ->
  (forall i x, cbs !! i = Some x -> x = eightPortTurn (k0 + Z.of_nat i)) ->
  eightPortRegisters cfg array blockSize k0 s ->
  eightPortLoop cfg array blockSize cbs s = Ok t ->
  length (port_writes t) = (3 * length cbs)%nat
  /\ forall i, (i < length cbs)%nat ->
       exists onMask bitmask,
         port_writes t !! (3 * i)%nat = Some onMask
         /\ port_writes t !! (3 * i + 1)%nat = Some bitmask
         /\ port_writes t !! (3 * i + 2)%nat = Some 0
         /\ eightPortWritten cfg array blockSize (k0 + Z.of_nat i) onMask bitmask.
Proof.
  induction cbs as [|[c b] cbs IH]; intros k0 s t Hk0 Hturn Hinv H.
  - cbn in H. injection H as <-. split; [reflexivity|]. cbn. lia.
  - pose proof (Hturn 0%nat (c, b) eq_refl) as E. rewrite Z.add_0_r in E.
    unfold eightPortTurn in E. injection E as -> ->.
    cbn [eightPortLoop] in H.
    destruct (eightPortBit cfg array blockSize (k0 / 8) s (7 - k0 mod 8))
      as [[s' ev]|] eqn:Eb; [|discriminate].
    cbn [mbind result_bind fst snd] in H.
    destruct (eightPortLoop cfg array blockSize cbs s') as [ts|] eqn:El; [|discriminate].
    cbn [mbind result_bind] in H. injection H as <-.
    destruct (eightPortBit_turn k0 s s' ev Hk0 Hinv Eb) as (Hnext & o & m & Hev & Hw).
    destruct (IH (k0 + 1) s' ts) as [Hlen Hrest]; try assumption; [lia | |].
    { intros i x Hx. rewrite (Hturn (S i) x Hx). f_equal. lia. }
    rewrite port_writes_app, Hev. split.
    + cbn [app length]. rewrite Hlen. lia.
    + intros [|i] Hi.
      * exists o, m. rewrite Z.add_0_r.
        split; [reflexivity|]. split; [reflexivity|]. split; [reflexivity | exact Hw].
      * cbn [length] in Hi. destruct (Hrest i ltac:(lia)) as (o' & m' & H0 & H1 & H2 & Hw').
        exists o', m'.
        replace (3 * S i)%nat with (S (S (S (3 * i)))) by lia.
        replace (k0 + Z.of_nat (S i)) with (k0 + 1 + Z.of_nat i) by lia.
        cbn [app lookup list_lookup Nat.add]. auto.
Qed.

End eightPortTurns.

(** The turns in the order of the two loops. *)
Lemma eightPortTurn_at n i :
  0 <= i < 8 -> 0 <= n -> eightPortTurn (i + 8 * n) = (n, 7 - i).
Proof.
  intros Hi Hn. unfold eightPortTurn. f_equal; Z.to_euclidean_division_equations; lia.
Qed.

Lemma eightPort_turns (n : nat) :
  (c ← seqZ 0 (Z.of_nat n); b ← bits_down; [(c, b)])
  = map eightPortTurn (seqZ 0 (8 * Z.of_nat n)).
Proof.
  induction n as [|n IH]; [reflexivity|].
  replace (Z.of_nat (S n)) with (Z.of_nat n + 1) by lia.
  replace (8 * (Z.of_nat n + 1)) with (8 * Z.of_nat n + 8) by lia.
  rewrite !seqZ_app, bind_app, map_app, IH by lia. f_equal.
  rewrite !Z.add_0_l. change (seqZ (Z.of_nat n) 1) with [Z.of_nat n].
  change (map eightPortTurn (seqZ (8 * Z.of_nat n) 8))
    with (map (fun i => eightPortTurn (i + 8 * Z.of_nat n)) [0; 1; 2; 3; 4; 5; 6; 7]).
  cbn [map]. rewrite !eightPortTurn_at by lia. reflexivity.
Qed.

Lemma eightPort_turns_lookup blockSize i x :
  0 <= blockSize ->
  (c ← seqZ 0 blockSize; b ← bits_down; [(c, b)]) !! i = Some x ->
  x = eightPortTurn (0 + Z.of_nat i).
Proof.
  intros Hb. rewrite <- (Z2Nat.id blockSize) by assumption.
  rewrite eightPort_turns, list_lookup_fmap. intros H.
  destruct (seqZ 0 _ !! i) as [k|] eqn:E; [|discriminate].
  apply lookup_seqZ in E. destruct E as [-> _]. now injection H as <-.
Qed.

Lemma eightPort_turns_length blockSize :
  0 <= blockSize ->
  length (c ← seqZ 0 blockSize; b ← bits_down; [(c, b)]) = Z.to_nat (8 * blockSize).
Proof.
  intros Hb. rewrite <- (Z2Nat.id blockSize) at 1 by assumption.
  rewrite eightPort_turns, length_map, length_seqZ. f_equal. lia.
Qed.

Lemma eightPortRegisters_start cfg array blockSize :
  eightPortRegisters cfg array blockSize 0 ([0; 0; 0; 0; 0; 0; 0; 0], 0).
Proof.
  split; [reflexivity|]. cbn [fst snd]. split; [|split].
  - intros j. now rewrite Z.testbit_0_l.
  - intros j Hj _ Hlt. lia.
  - intros j r Hj Hr _.
    apply list_elem_of_lookup_2 in Hr.
    repeat (apply elem_of_cons in Hr; destruct Hr as [->|Hr]; [reflexivity|]).
    now apply elem_of_nil in Hr.
Qed.

(** The send as a whole. *)
Lemma eightPortSoftwareSendBytes_turns cfg count array t :
  eightPortSoftwareSendBytes cfg count array = Ok t ->
  let blockSize :=
    uint16 (count / uint16 (clockPortPin cfg - dataPortPin cfg + 1)
            / stripBPP cfg * stripBPP cfg) in
  length (port_writes t) = (3 * Z.to_nat (8 * blockSize))%nat
  /\ forall k, 0 <= k < 8 * blockSize ->
       exists onMask bitmask,
         port_writes t !! (3 * Z.to_nat k)%nat = Some onMask
         /\ port_writes t !! (3 * Z.to_nat k + 1)%nat = Some bitmask
         /\ port_writes t !! (3 * Z.to_nat k + 2)%nat = Some 0
         /\ eightPortWritten cfg array blockSize k onMask bitmask.
Proof.
  intros H blockSize. unfold eightPortSoftwareSendBytes in H.
  destruct (uint16 (clockPortPin cfg - dataPortPin cfg + 1) =? 0); [discriminate|].
  fold blockSize in H.
  assert (Hb : 0 <= blockSize) by apply uint16_range.
  destruct (eightPortLoop_turns cfg array blockSize _ 0 _ t (Z.le_refl 0)
              (fun i x => eightPort_turns_lookup blockSize i x Hb)
              (eightPortRegisters_start cfg array blockSize) H) as [Hlen Hturns].
  rewrite eightPort_turns_length in Hlen, Hturns by assumption.
  split; [exact Hlen|].
  intros k Hk. destruct (Hturns (Z.to_nat k)) as (o & m & H0 & H1 & H2 & Hw); [lia|].
  exists o, m. rewrite Z.add_0_l, Z2Nat.id in Hw by lia. auto.
Qed.

(** X13. Whatever the pixels are, [eightPortSoftwareSendBytes] raises only
    pins whose register it loads: every value it writes to the port has its
    bits among the pins 0 to 7 with [eightPortLoads], which are pin 0 when
    [dataPortPin] is 0 and the pins from [dataPortPin] to [clockPortPin]. *)
Theorem eightPort_raises_loaded_pins cfg count array t :
  eightPortSoftwareSendBytes cfg count array = Ok t ->
  Forall (fun v => forall j, Z.testbit v j = true ->
                             0 <= j <= 7 /\ eightPortLoads cfg j = true)
         (port_writes t).
Proof.
  intros H. destruct (eightPortSoftwareSendBytes_turns cfg count array t H) as [Hlen Hturns].
  apply Forall_lookup. intros i v Hv j Hj.
  pose proof (lookup_lt_Some _ _ _ Hv) as Hi. rewrite Hlen in Hi.
  pose proof (Nat.div_mod_eq i 3) as Ei.
  pose proof (Nat.mod_upper_bound i 3 ltac:(lia)) as Hr.
  destruct (Hturns (Z.of_nat (i / 3))) as (o & m & H0 & H1 & H2 & Ho & Hm & _); [lia|].
  rewrite Nat2Z.id in H0, H1, H2.
  destruct (i mod 3)%nat as [|[|[|r]]] eqn:Er; [| | |lia].
  - rewrite Nat.add_0_r in Ei. rewrite <- Ei, Hv in H0. injection H0 as ->.
    destruct (Ho j Hj) as (? & ? & _). auto.
  - rewrite <- Ei, Hv in H1. injection H1 as ->.
    destruct (Hm j Hj) as (? & ? & _). auto.
  - rewrite <- Ei, Hv in H2. injection H2 as ->.
    now rewrite Z.testbit_0_l in Hj.
Qed.

Lemma eightPort_raises_loaded_pins_witness :
  Forall (fun v => forall j, Z.testbit v j = true ->
                             0 <= j <= 7 /\ eightPortLoads (ws2812b8s Port.D 0 1) j = true)
         (port_writes
            (match eightPortSoftwareSendBytes (ws2812b8s Port.D 0 1) 6 [1; 2; 3; 4; 5; 6] with
             | Ok t => t
             | Fail _ => []
             end)).
Proof.
  apply (eightPort_raises_loaded_pins (ws2812b8s Port.D 0 1) 6 [1; 2; 3; 4; 5; 6]).
  vm_compute. reflexivity.
Defined.

(** X14. The pins work as a pipeline.  Pin [j] is loaded for the first time
    in turn [7 - j] of the loops, and from then on every turn sends one bit
    of its block of [blockSize] bytes, which starts at byte
    [(j - dataPortPin) * blockSize] of the array: in turn [n + (7 - j)],
    [onMask] raises pin [j] and [bitmask] holds it for bit [n] of the block,
    the most significant bit of a byte first. *)
Theorem eightPort_pipeline cfg count array t j n :
  eightPortSoftwareSendBytes cfg count array = Ok t ->
  let blockSize :=
    uint16 (count / uint16 (clockPortPin cfg - dataPortPin cfg + 1)
            / stripBPP cfg * stripBPP cfg) in
  0 <= j <= 7 -> eightPortLoads cfg j = true ->
  0 <= n -> n + (7 - j) < 8 * blockSize ->
  exists v onMask bitmask,
    rd array (uint16 (n / 8 + (j - dataPortPin cfg) * blockSize)) = Ok v
    /\ port_writes t !! (3 * Z.to_nat (n + (7 - j)))%nat = Some onMask
    /\ port_writes t !! (3 * Z.to_nat (n + (7 - j)) + 1)%nat = Some bitmask
    /\ port_writes t !! (3 * Z.to_nat (n + (7 - j)) + 2)%nat = Some 0
    /\ Z.testbit onMask j = true
    /\ Z.testbit bitmask j = Z.testbit v (7 - n mod 8).
Proof.
  intros H blockSize Hj Hl Hn Hlt.
  destruct (eightPortSoftwareSendBytes_turns cfg count array t H) as [_ Hturns].
  fold blockSize in Hturns.
  destruct (Hturns (n + (7 - j))) as (o & m & H0 & H1 & H2 & _ & _ & Hw); [lia|].
  destruct (Hw j Hj Hl ltac:(lia)) as (Ho & v & Hv & Hm).
  replace (n + (7 - j) - (7 - j)) with n in Hv, Hm by lia.
  exists v, o, m. auto 10.
Qed.

Lemma eightPort_pipeline_witness :
  exists v onMask bitmask,
    rd [128; 2; 3; 4; 5; 6] (uint16 (9 / 8 + (1 - 0) * 3)) = Ok v
    /\ port_writes
         (match eightPortSoftwareSendBytes (ws2812b8s Port.D 0 1) 6 [128; 2; 3; 4; 5; 6] with
          | Ok t => t
          | Fail _ => []
          end) !! (3 * Z.to_nat (9 + (7 - 1)))%nat = Some onMask
    /\ port_writes
         (match eightPortSoftwareSendBytes (ws2812b8s Port.D 0 1) 6 [128; 2; 3; 4; 5; 6] with
          | Ok t => t
          | Fail _ => []
          end) !! (3 * Z.to_nat (9 + (7 - 1)) + 1)%nat = Some bitmask
    /\ port_writes
         (match eightPortSoftwareSendBytes (ws2812b8s Port.D 0 1) 6 [128; 2; 3; 4; 5; 6] with
          | Ok t => t
          | Fail _ => []
          end) !! (3 * Z.to_nat (9 + (7 - 1)) + 2)%nat = Some 0
    /\ Z.testbit onMask 1 = true
    /\ Z.testbit bitmask 1 = Z.testbit v (7 - 9 mod 8).
Proof.
  apply (eightPort_pipeline (ws2812b8s Port.D 0 1) 6 [128; 2; 3; 4; 5; 6] _ 1 9).
  - vm_compute. reflexivity.
  - lia.
  - reflexivity.
  - lia.
  - vm_compute. reflexivity.
Defined.

(** X15. The pipeline is not drained.  The loops make [8 * blockSize] turns of
    three writes each, and pin [j] stays low in the turns before [7 - j]:
    as a loaded pin sends one bit of its block in every turn from [7 - j]
    on, the turns are used up when [8 * blockSize - (7 - j)] bits of the
    block of pin [j] are out, and the last [7 - j] bits of the last byte of
    the block are never written. *)
Theorem eightPort_not_drained cfg count array t :
  eightPortSoftwareSendBytes cfg count array = Ok t ->
  let blockSize :=
    uint16 (count / uint16 (clockPortPin cfg - dataPortPin cfg + 1)
            / stripBPP cfg * stripBPP cfg) in
  length (port_writes t) = (3 * Z.to_nat (8 * blockSize))%nat
  /\ forall j k i v,
       0 <= k < 7 - j -> (3 * Z.to_nat k <= i < 3 * Z.to_nat k + 3)%nat ->
       port_writes t !! i = Some v -> Z.testbit v j = false.
Proof.
  intros H blockSize.
  destruct (eightPortSoftwareSendBytes_turns cfg count array t H) as [Hlen Hturns].
  fold blockSize in Hlen, Hturns. split; [exact Hlen|].
  intros j k i v Hk Hi Hv.
  pose proof (lookup_lt_Some _ _ _ Hv) as Hlt. rewrite Hlen in Hlt.
  destruct (Hturns k) as (o & m & H0 & H1 & H2 & Ho & Hm & _); [lia|].
  destruct (Z.testbit v j) eqn:Eb; [exfalso|reflexivity].
  assert (Ei : i = (3 * Z.to_nat k)%nat \/ i = (3 * Z.to_nat k + 1)%nat
               \/ i = (3 * Z.to_nat k + 2)%nat) by lia.
  destruct Ei as [->|[->| ->]].
  - rewrite Hv in H0. injection H0 as ->. destruct (Ho j Eb) as (_ & _ & ?). lia.
  - rewrite Hv in H1. injection H1 as ->. destruct (Hm j Eb) as (_ & _ & ?). lia.
  - rewrite Hv in H2. injection H2 as ->. now rewrite Z.testbit_0_l in Eb.
Qed.

Lemma eightPort_not_drained_witness :
  length (port_writes
            (match eightPortSoftwareSendBytes (ws2812b8s Port.D 0 1) 6 [255; 2; 3; 255; 5; 6] with
             | Ok t => t
             | Fail _ => []
             end))
  = (3 * Z.to_nat (8 * uint16 (6 / uint16 (1 - 0 + 1) / 3 * 3)))%nat
  /\ forall j k i v,
       0 <= k < 7 - j -> (3 * Z.to_nat k <= i < 3 * Z.to_nat k + 3)%nat ->
       port_writes
         (match eightPortSoftwareSendBytes (ws2812b8s Port.D 0 1) 6 [255; 2; 3; 255; 5; 6] with
          | Ok t => t
          | Fail _ => []
          end) !! i = Some v ->
       Z.testbit v j = false.
Proof.
  apply (eightPort_not_drained (ws2812b8s Port.D 0 1) 6 [255; 2; 3; 255; 5; 6]).
  vm_compute. reflexivity.
Defined.

(** X16. With [clockPortPin] below [dataPortPin] there is no pin between the
    two.  The number of pins [clockPortPin - dataPortPin + 1] is then zero,
    and the division by it is undefined, or it is negative and converted to
    [unsigned int] for the division of [count], which gives a [blockSize] of
    zero: the send writes nothing, and the array is not read. *)
Theorem eightPort_no_pins cfg count array :
  0 <= clockPortPin cfg < dataPortPin cfg -> dataPortPin cfg <= 255 ->
  0 <= count < 65536 ->
  eightPortSoftwareSendBytes cfg count array
  = if clockPortPin cfg + 1 =? dataPortPin cfg then Fail division_by_zero else Ok [].
Proof.
  intros Hc Hd Hn. unfold eightPortSoftwareSendBytes.
  destruct (Z.eqb_spec (clockPortPin cfg + 1) (dataPortPin cfg)) as [E|E].
  - replace (clockPortPin cfg - dataPortPin cfg + 1) with 0 by lia. reflexivity.
  - assert (El : uint16 (clockPortPin cfg - dataPortPin cfg + 1)
                 = 65536 + (clockPortPin cfg - dataPortPin cfg + 1)).
    { unfold uint16. symmetry. apply (Z.mod_unique _ _ (-1)); lia. }
    rewrite El.
    replace (_ =? 0) with false by (symmetry; apply Z.eqb_neq; lia).
    assert (Hq : 0 <= count / (65536 + (clockPortPin cfg - dataPortPin cfg + 1)) <= 1).
    { split; [apply Z.div_pos; lia|].
      apply Z.lt_succ_r. apply Z.div_lt_upper_bound; lia. }
    assert (Hz : count / (65536 + (clockPortPin cfg - dataPortPin cfg + 1))
                 / stripBPP cfg * stripBPP cfg = 0).
    { destruct (stripBPP_cases cfg) as [-> | ->];
        rewrite Z.div_small by lia; reflexivity. }
    rewrite Hz. reflexivity.
Qed.

Lemma eightPort_no_pins_witness :
  eightPortSoftwareSendBytes (ws2812b8s Port.D 6 0) 60 (replicate 60 255)
  = if clockPortPin (ws2812b8s Port.D 6 0) + 1 =? dataPortPin (ws2812b8s Port.D 6 0)
    then Fail division_by_zero else Ok [].
Proof.
  apply (eightPort_no_pins (ws2812b8s Port.D 6 0) 60 (replicate 60 255)); cbn; lia.
Defined.

(** ** Remapped sends *)

(** X17. No entry point that takes a remap array can be built: each of them
    instantiates the palette and remap [send] with 0 or 255 bits per pixel,
    which its [STATIC_ASSERT] on 1, 2, 4 or 8 bits rejects, whatever the
    strip, the pixels and the map are. *)
Theorem send_remap_rejected cfg F mapBits count array remap st :
  send_remap_uint8 cfg mapBits count array remap st = Fail static_assert_failed
  /\ send_remap8 cfg F count array remap st = Fail static_assert_failed
  /\ send_remap16 cfg F count array remap st = Fail static_assert_failed.
Proof. repeat split. Qed.

(** ** Two ports: what the two lines receive *)

Lemma for_each_flat_map {X : Type} (l : list X) (body : X -> result (list event))
    (f : X -> list event) :
  (forall x, In x l -> body x = Ok (f x)) -> for_each l body = Ok (flat_map f l).
Proof.
  induction l as [|x l IH]; intros H; [reflexivity|].
  cbn [for_each flat_map]. rewrite (H x (or_introl eq_refl)). cbn [mbind result_bind].
  rewrite IH by (intros y Hy; apply H; now right). reflexivity.
Qed.

(** The mask [1 << bit] of the loop on [bit] tests that bit. *)
Lemma twoPort_mask_test v bit :
  In bit bits_down ->
  negb (Z.land v (uint8 (Z.shiftl 1 bit)) =? 0) = Z.testbit v bit.
Proof.
  intros Hin.
  assert (Hb : 0 <= bit <= 7) by (unfold bits_down in Hin; cbn in Hin; lia).
  rewrite uint8_small.
  - rewrite land_bit_test by lia. apply negb_involutive.
  - rewrite Z.shiftl_1_l. split; [apply Z.pow_nonneg; lia|].
    change 256 with (2 ^ 8). apply Z.pow_lt_mono_r; lia.
Qed.

(** One pair of bytes: eight bit periods. *)
Lemma twoPortByte_bits cfg array dc t :
  twoPortByte cfg array dc = Ok t ->
  exists d c,
    array !! Z.to_nat (fst dc) = Some d /\ array !! Z.to_nat (snd dc) = Some c
    /\ t = flat_map (fun bit => twoPortBit cfg (Z.testbit d bit) (Z.testbit c bit))
             bits_down.
Proof.
  unfold twoPortByte. intros H.
  destruct (rd array (fst dc)) as [d|] eqn:Ed; [|discriminate H].
  destruct (rd array (snd dc)) as [c|] eqn:Ec; [|discriminate H].
  exists d, c. apply rd_Ok in Ed, Ec.
  split; [apply Ed|]. split; [apply Ec|].
  rewrite (for_each_flat_map bits_down _
             (fun bit => twoPortBit cfg (Z.testbit d bit) (Z.testbit c bit))) in H.
  - now injection H as <-.
  - intros bit Hin. cbn [mbind result_bind].
    now rewrite !twoPort_mask_test by assumption.
Qed.

(** The pulse of a line in one bit period: short for a 0; for a 1 it lasts
    [high1 - 2*sbiCycles] cycles, and the short pulse of the other line
    more when that line sends a 0. *)
Lemma line_widths_twoPortBit cfg l (d c : bool) rest :
  line_widths l None (twoPortBit cfg d c ++ rest)
  = (let bit := match l with DataLine => d | ClockLine => c end in
     let other := match l with DataLine => c | ClockLine => d end in
     if bit
     then (if other then 0 else Z.max 0 (high0 cfg - sbiCycles))
          + Z.max 0 (high1 cfg - 2 * sbiCycles)
     else Z.max 0 (high0 cfg - sbiCycles))
    :: line_widths l None rest.
Proof.
  unfold twoPortBit, DELAY_CYCLES.
  destruct (Z.ltb_spec 0 (high0 cfg - sbiCycles));
    destruct (Z.ltb_spec 0 (high1 cfg - 2 * sbiCycles));
    destruct (Z.ltb_spec 0 (low1 cfg - 2 * cbiCycles));
    destruct l, d, c; cbn [app line_widths line_eqb]; f_equal; lia.
Qed.

Lemma twoPortDecode_pulse cfg (bit other : bool) :
  2 * sbiCycles < high1 cfg ->
  high1 cfg - 2 * sbiCycles <> Z.max 0 (high0 cfg - sbiCycles) ->
  twoPortDecode cfg
    (if bit
     then (if other then 0 else Z.max 0 (high0 cfg - sbiCycles))
          + Z.max 0 (high1 cfg - 2 * sbiCycles)
     else Z.max 0 (high0 cfg - sbiCycles))
  = bit.
Proof.
  intros H1 Hne. unfold twoPortDecode. destruct bit.
  - apply negb_true_iff, Z.eqb_neq. destruct other; lia.
  - now rewrite Z.eqb_refl.
Qed.

(** The eight pulses of a byte decode to its bits. *)
Lemma twoPortDecode_byte cfg l d c rest :
  2 * sbiCycles < high1 cfg ->
  high1 cfg - 2 * sbiCycles <> Z.max 0 (high0 cfg - sbiCycles) ->
  map (twoPortDecode cfg)
    (line_widths l None
       (flat_map (fun bit => twoPortBit cfg (Z.testbit d bit) (Z.testbit c bit)) bits_down
        ++ rest))
  = byte_bits (match l with DataLine => d | ClockLine => c end)
    ++ map (twoPortDecode cfg) (line_widths l None rest).
Proof.
  intros H1 Hne. unfold byte_bits, bits_down. cbn [flat_map map].
  rewrite <- !app_assoc, app_nil_l.
  repeat (rewrite line_widths_twoPortBit; cbn [map app]; cbv zeta;
          rewrite twoPortDecode_pulse by assumption).
  now destruct l.
Qed.

(** A run of the routine on a list of pairs of indices: each line receives
    the bytes at its indices. *)
Lemma twoPortReceived_schedule cfg array sched :
  2 * sbiCycles < high1 cfg ->
  high1 cfg - 2 * sbiCycles <> Z.max 0 (high0 cfg - sbiCycles) ->
  Forall (fun byte => 0 <= byte < 256) array ->
  forall t,
    for_each sched (twoPortByte cfg array) = Ok t ->
    twoPortReceived cfg DataLine t = map (fun i => array !!! Z.to_nat i) (map fst sched)
    /\ twoPortReceived cfg ClockLine t
       = map (fun i => array !!! Z.to_nat i) (map snd sched).
Proof.
  intros H1 Hne Hbytes. unfold twoPortReceived.
  induction sched as [|dc sched IH]; intros t H.
  - cbn in H. injection H as <-. split; reflexivity.
  - cbn [for_each] in H.
    destruct (twoPortByte cfg array dc) as [t1|] eqn:E1; [|discriminate].
    cbn [mbind result_bind] in H.
    destruct (for_each sched (twoPortByte cfg array)) as [ts|] eqn:E2; [|discriminate].
    cbn [mbind result_bind] in H. injection H as <-.
    destruct (twoPortByte_bits cfg array dc t1 E1) as (d & c & Hd & Hc & ->).
    destruct (IH ts eq_refl) as [IHd IHc].
    assert (Hdr : 0 <= d < 256)
      by (apply (proj1 (Forall_forall _ _) Hbytes), (list_elem_of_lookup_2 _ _ _ Hd)).
    assert (Hcr : 0 <= c < 256)
      by (apply (proj1 (Forall_forall _ _) Hbytes), (list_elem_of_lookup_2 _ _ _ Hc)).
    cbn [map]. rewrite !twoPortDecode_byte by assumption.
    rewrite !msb_bytes_byte by assumption.
    rewrite (list_lookup_total_correct _ _ _ Hd), (list_lookup_total_correct _ _ _ Hc).
    split; f_equal; assumption.
Qed.

Lemma map_lookup_seqZ (array : list Z) :
  map (fun i => array !!! Z.to_nat i) (seqZ 0 (Z.of_nat (length array))) = array.
Proof.
  apply list_eq. intros i. change (map ?f ?l) with (f <$> l). rewrite list_lookup_fmap.
  destruct (array !! i) as [v|] eqn:E.
  - rewrite lookup_seqZ_lt by (apply lookup_lt_Some in E; lia).
    cbn [fmap option_fmap option_map]. rewrite Z.add_0_l, Nat2Z.id.
    f_equal. now apply list_lookup_total_correct.
  - rewrite lookup_seqZ_ge by (apply lookup_ge_None in E; lia). reflexivity.
Qed.

(** C7. For a byte array of [count] bytes, [count] being [k] pairs of pixels
    of [stripBPP] bytes, the two-port routine ends without reading outside the
    array. The indices it reads for the data port followed by those it reads
    for the clock port are a permutation of [0 .. count-1]: the first half
    and the second half of the array in split mode, the pixels [2j] and the
    pixels [2j+1] in interleaved mode. The events it produces carry these
    bytes: when the pulse of a 1 can be told from the pulse of a 0, the bytes
    the data line receives are the bytes at the indices of the data port,
    those the clock line receives are the bytes at the indices of the clock
    port, and the two together are the bytes of the array, each once. *)
Theorem twoPort_every_byte_once cfg k count array :
  protocol cfg = TWO_PORT_SPLIT_BITBANG \/ protocol cfg = TWO_PORT_INTLV_BITBANG ->
  0 <= k -> count = 2 * stripBPP cfg * k -> count < 65536 ->
  Z.of_nat (length array) = count ->
  exists sched t,
    twoPortSchedule cfg (S (Z.to_nat (twoPortBlockSize cfg count)))
      (twoPortBlockSize cfg count) (twoPortIncrement cfg) 0 = Ok sched
    /\ sendBytes cfg count array = Ok t
    /\ for_each sched (twoPortByte cfg array) = Ok t
    /\ map fst sched ++ map snd sched ≡ₚ seqZ 0 count
    /\ (protocol cfg = TWO_PORT_SPLIT_BITBANG ->
        map fst sched = seqZ 0 (count / 2)
        /\ map snd sched = seqZ (count / 2) (count / 2))
    /\ (protocol cfg = TWO_PORT_INTLV_BITBANG ->
        map fst sched = flat_map (fun j => pixel_bytes (stripBPP cfg) (2 * j)) (seqZ 0 k)
        /\ map snd sched
           = flat_map (fun j => pixel_bytes (stripBPP cfg) (2 * j + 1)) (seqZ 0 k))
    /\ (Forall (fun byte => 0 <= byte < 256) array ->
        2 * sbiCycles < high1 cfg ->
        high1 cfg - 2 * sbiCycles <> Z.max 0 (high0 cfg - sbiCycles) ->
        twoPortReceived cfg DataLine t
        = map (fun i => array !!! Z.to_nat i) (map fst sched)
        /\ twoPortReceived cfg ClockLine t
           = map (fun i => array !!! Z.to_nat i) (map snd sched)
        /\ twoPortReceived cfg DataLine t ++ twoPortReceived cfg ClockLine t ≡ₚ array).
Proof.
  intros Hp Hk Hcount Hfit Hlen.
  destruct (twoPortSchedule_covers cfg k count array Hp Hk Hcount Hfit Hlen)
    as (sched & t & Hsched & Hsend & Hfor & Hperm & Hsplit & Hintlv).
  exists sched, t. repeat (split; [assumption|]).
  intros Hbytes H1 Hne.
  destruct (twoPortReceived_schedule cfg array sched H1 Hne Hbytes t Hfor) as [Hd Hc].
  split; [exact Hd|]. split; [exact Hc|].
  rewrite Hd, Hc, <- map_app.
  etransitivity; [apply Permutation_map; exact Hperm|].
  rewrite <- Hlen, map_lookup_seqZ. reflexivity.
Qed.

Lemma twoPort_every_byte_once_witness :
  exists sched t,
    sendBytes (ws2812b TWO_PORT_INTLV_BITBANG) 12 [1; 2; 3; 4; 5; 6; 7; 8; 9; 10; 11; 12]
    = Ok t
    /\ map fst sched = [0; 1; 2; 6; 7; 8]
    /\ map snd sched = [3; 4; 5; 9; 10; 11]
    /\ twoPortReceived (ws2812b TWO_PORT_INTLV_BITBANG) DataLine t = [1; 2; 3; 7; 8; 9]
    /\ twoPortReceived (ws2812b TWO_PORT_INTLV_BITBANG) ClockLine t = [4; 5; 6; 10; 11; 12].
Proof.
  destruct (twoPort_every_byte_once (ws2812b TWO_PORT_INTLV_BITBANG) 2 12
              [1; 2; 3; 4; 5; 6; 7; 8; 9; 10; 11; 12])
    as (sched & t & _ & H2 & _ & _ & _ & H3 & H4).
  - right. reflexivity.
  - lia.
  - reflexivity.
  - lia.
  - reflexivity.
  - destruct (H3 eq_refl) as [Hf Hs].
    destruct H4 as (Hd & Hc & _).
    + repeat constructor; lia.
    + vm_compute. reflexivity.
    + vm_compute. intros H. discriminate H.
    + exists sched, t. rewrite Hd, Hc, Hf, Hs.
      split; [exact H2|]. repeat split.
Defined.
